(** * Temperature dashboard ingestion simulator: a shallow embedding

    The development follows [simulator/ingest_simulator.py].  Python values
    are embedded as follows.

    - [str] is a Stdlib [string]; the character numbered [n] stands for
      the code point U+00[n], so the embedding covers text in
      U+0000..U+00FF.  [bytes] is a [list Z] of octets.
    - [int] is [Z]; the floats that drive control flow ([speed], the
      difference of two instants in seconds) are exact rationals [Q].
    - A raised exception is a value of [exn]; stateful code runs in the
      monad [M] over the state of the outside world and of the locals of
      [simulate_ingestion]. *)

From Stdlib Require Import ZArith QArith List String Ascii Bool Lia.
From Stdlib Require Import Qminmax Permutation Sorted.
Import ListNotations.
Local Open Scope string_scope.
Local Open Scope list_scope.
Local Open Scope Z_scope.

(** ** Octets, UTF-8 and hexadecimal rendering *)

Definition bytes := list Z.

Definition code_point (c : ascii) : Z := Z.of_N (N_of_ascii c).

(** [str.encode('utf-8')] on one code point below U+0100. *)
Definition utf8_char (c : ascii) : bytes :=
  let n := code_point c in
  if n <? 128 then [n]
  else [Z.lor 192 (Z.shiftr n 6); Z.lor 128 (Z.land n 63)].

Fixpoint encode_utf8 (s : string) : bytes :=
  match s with
  | EmptyString => []
  | String c rest => utf8_char c ++ encode_utf8 rest
  end.

Definition hex_digit (n : Z) : ascii :=
  match n with
  | 0 => "0" | 1 => "1" | 2 => "2" | 3 => "3" | 4 => "4" | 5 => "5"
  | 6 => "6" | 7 => "7" | 8 => "8" | 9 => "9" | 10 => "a" | 11 => "b"
  | 12 => "c" | 13 => "d" | 14 => "e" | _ => "f"
  end%char.

(** [bytes.hex()]: two lowercase digits for every octet. *)
Fixpoint hex_of_bytes (bs : bytes) : string :=
  match bs with
  | [] => EmptyString
  | b :: rest =>
      String (hex_digit ((b / 16) mod 16))
        (String (hex_digit (b mod 16)) (hex_of_bytes rest))
  end.

Definition is_lower_hex (c : ascii) : bool :=
  let n := code_point c in
  ((48 <=? n) && (n <=? 57)) || ((97 <=? n) && (n <=? 102)).

Fixpoint string_forallb (p : ascii -> bool) (s : string) : bool :=
  match s with
  | EmptyString => true
  | String c rest => p c && string_forallb p rest
  end.

(** ** SHA-256 (FIPS 180-4), the digest [hashlib.sha256] computes *)

Module SHA256.

Definition wrap (x : Z) : Z := x mod 2 ^ 32.
Definition add32 (x y : Z) : Z := wrap (x + y).
Definition rotr (n x : Z) : Z :=
  Z.lor (Z.shiftr x n) (wrap (Z.shiftl x (32 - n))).
Definition not32 (x : Z) : Z := Z.lxor x (2 ^ 32 - 1).

Definition ch (x y z : Z) : Z := Z.lxor (Z.land x y) (Z.land (not32 x) z).
Definition maj (x y z : Z) : Z :=
  Z.lxor (Z.lxor (Z.land x y) (Z.land x z)) (Z.land y z).
Definition big_sigma0 (x : Z) : Z :=
  Z.lxor (Z.lxor (rotr 2 x) (rotr 13 x)) (rotr 22 x).
Definition big_sigma1 (x : Z) : Z :=
  Z.lxor (Z.lxor (rotr 6 x) (rotr 11 x)) (rotr 25 x).
Definition small_sigma0 (x : Z) : Z :=
  Z.lxor (Z.lxor (rotr 7 x) (rotr 18 x)) (Z.shiftr x 3).
Definition small_sigma1 (x : Z) : Z :=
  Z.lxor (Z.lxor (rotr 17 x) (rotr 19 x)) (Z.shiftr x 10).

(** The largest [r] below [2 ^ bits] with [r ^ degree <= n], found bit
    by bit from the top. *)
Fixpoint root_bits (degree n : Z) (bits : nat) (r : Z) : Z :=
  match bits with
  | O => r
  | S b =>
      let candidate := r + 2 ^ Z.of_nat b in
      root_bits degree n b (if candidate ^ degree <=? n then candidate else r)
  end.

Definition first_primes : list Z :=
  [2; 3; 5; 7; 11; 13; 17; 19; 23; 29; 31; 37; 41; 43; 47; 53; 59; 61; 67;
   71; 73; 79; 83; 89; 97; 101; 103; 107; 109; 113; 127; 131; 137; 139; 149;
   151; 157; 163; 167; 173; 179; 181; 191; 193; 197; 199; 211; 223; 227;
   229; 233; 239; 241; 251; 257; 263; 269; 271; 277; 281; 283; 293; 307;
   311].

(** Section 4.2.2: the first 32 bits of the fractional parts of the cube
    roots of the first 64 primes. *)
Definition round_constants : list Z :=
  Eval vm_compute in
    map (fun p => wrap (root_bits 3 (p * 2 ^ 96) 40 0)) first_primes.

(** Section 5.3.3: the first 32 bits of the fractional parts of the
    square roots of the first 8 primes. *)
Definition initial_hash : list Z :=
  Eval vm_compute in
    map (fun p => wrap (root_bits 2 (p * 2 ^ 64) 40 0)) (firstn 8 first_primes).

(** Big-endian rendering of the low [n] octets of [x]. *)
Fixpoint be_bytes (n : nat) (x : Z) : bytes :=
  match n with
  | O => []
  | S k => (Z.shiftr x (8 * Z.of_nat k)) mod 256 :: be_bytes k x
  end.

Definition be_word (bs : bytes) : Z :=
  fold_left (fun acc b => acc * 256 + b mod 256) bs 0.

(** Padding of section 5.1.1: a one bit, zeros up to 56 modulo 64 octets,
    then the bit length on eight octets. *)
Definition pad (msg : bytes) : bytes :=
  let len := Z.of_nat (List.length msg) in
  let zeros := Z.to_nat ((55 - len) mod 64) in
  msg ++ 128 :: repeat 0 zeros ++ be_bytes 8 (8 * len).

Fixpoint chunks (fuel width : nat) (bs : bytes) : list bytes :=
  match fuel with
  | O => []
  | S k =>
      match bs with
      | [] => []
      | _ => firstn width bs :: chunks k width (skipn width bs)
      end
  end.

Definition words_of_block (block : bytes) : list Z :=
  map be_word (chunks 16 4 block).

(** The message schedule, newest word first: [recent] holds the sixteen
    last words. *)
Fixpoint schedule (n : nat) (recent : list Z) : list Z :=
  match n with
  | O => []
  | S k =>
      let wt := add32 (add32 (small_sigma1 (nth 1 recent 0)) (nth 6 recent 0))
                      (add32 (small_sigma0 (nth 14 recent 0)) (nth 15 recent 0)) in
      wt :: schedule k (wt :: firstn 15 recent)
  end.

Definition message_schedule (block : bytes) : list Z :=
  let first := words_of_block block in
  first ++ schedule 48 (rev first).

Record regs := Regs { ra : Z; rb : Z; rc : Z; rd : Z;
                      re : Z; rf : Z; rg : Z; rh : Z }.

Definition round (r : regs) (kw : Z * Z) : regs :=
  let t1 := add32 (add32 (add32 (rh r) (big_sigma1 (re r)))
                         (add32 (ch (re r) (rf r) (rg r)) (fst kw)))
                  (snd kw) in
  let t2 := add32 (big_sigma0 (ra r)) (maj (ra r) (rb r) (rc r)) in
  Regs (add32 t1 t2) (ra r) (rb r) (rc r) (add32 (rd r) t1) (re r) (rf r) (rg r).

Definition regs_of (h : list Z) : regs :=
  Regs (nth 0 h 0) (nth 1 h 0) (nth 2 h 0) (nth 3 h 0)
       (nth 4 h 0) (nth 5 h 0) (nth 6 h 0) (nth 7 h 0).

Definition compress (h : list Z) (block : bytes) : list Z :=
  let r := fold_left round (combine round_constants (message_schedule block))
                     (regs_of h) in
  [add32 (nth 0 h 0) (ra r); add32 (nth 1 h 0) (rb r);
   add32 (nth 2 h 0) (rc r); add32 (nth 3 h 0) (rd r);
   add32 (nth 4 h 0) (re r); add32 (nth 5 h 0) (rf r);
   add32 (nth 6 h 0) (rg r); add32 (nth 7 h 0) (rh r)].

Definition digest (msg : bytes) : bytes :=
  let padded := pad msg in
  let h := fold_left compress (chunks (List.length padded) 64 padded) initial_hash in
  flat_map (be_bytes 4) h.

Definition block_size : nat := 64.

End SHA256.

(** ** HMAC (RFC 2104), as [hmac.new(key, msg, hashlib.sha256)] computes it *)

Module HMAC.

Definition xor_with (pad : Z) (key : bytes) : bytes :=
  map (fun b => Z.lxor b pad) key.

(** Keys longer than a block are hashed first; shorter ones are filled
    with zero octets. *)
Definition block_key (key : bytes) : bytes :=
  let k := if (SHA256.block_size <? List.length key)%nat
           then SHA256.digest key else key in
  k ++ repeat 0 (SHA256.block_size - List.length k).

Definition sha256 (key msg : bytes) : bytes :=
  let k := block_key key in
  SHA256.digest (xor_with 0x5c k ++ SHA256.digest (xor_with 0x36 k ++ msg)).

Definition hexdigest (key msg : bytes) : string :=
  hex_of_bytes (sha256 key msg).

End HMAC.

(** ** The simulator object and its signer *)

Record IngestionSimulator := {
  api_url : string;
  hmac_secret : string;
  device_id : string;
}.

Definition generate_hmac_signature (self : IngestionSimulator)
    (body timestamp : string) : string :=
  let message := (body ++ timestamp ++ device_id self)%string in
  let signature :=
    HMAC.hexdigest (encode_utf8 (hmac_secret self)) (encode_utf8 message) in
  signature.

(** ** Python values shared by the loader and the scheduler *)

(** Exception classes the code can raise or let through.  [PyException] is
    the plain [Exception] that [load_csv_data] re-raises. *)
Inductive exn :=
| ValueError | TypeError | AttributeError | KeyError | IndexError
| ZeroDivisionError | FileNotFoundError | OSError | RequestException
| PyException.

Inductive outcome (A : Type) :=
| Ok (a : A)
| Raised (e : exn).
Arguments Ok {A} a.
Arguments Raised {A} e.

(** A [float]: the value a literal denotes, kept exact, or one of the
    special values.  Rounding to binary64 is not modelled; the value of a
    reading is stored and serialised, never computed with. *)
Inductive pyfloat :=
| Finite (q : Q)
| Infinite (negative : bool)
| NaN.

(** One parsed JSON document, as [response.json()] returns it.  Numbers are
    integers: [processed] is a count. *)
#[warnings="-register-all"]
Inductive json :=
| JNull
| JBool (b : bool)
| JNum (n : Z)
| JStr (s : string)
| JArr (items : list json)
| JObj (fields : list (string * json)).

(** A reading is the dict [{'ts': .., 'sensor_id': .., 'value': ..}]. *)
Record reading := {
  ts : string;
  sensor_id : string;
  value : pyfloat;
}.

(** *** [str] methods *)

(** [str.isspace] on U+0000..U+00FF. *)
Definition is_space (c : ascii) : bool :=
  let n := code_point c in
  ((9 <=? n) && (n <=? 13)) || ((28 <=? n) && (n <=? 32))
  || (n =? 133) || (n =? 160).

Fixpoint lstrip_by (p : ascii -> bool) (s : string) : string :=
  match s with
  | EmptyString => EmptyString
  | String c rest => if p c then lstrip_by p rest else s
  end.

Fixpoint rstrip_by (p : ascii -> bool) (s : string) : string :=
  match s with
  | EmptyString => EmptyString
  | String c rest =>
      match rstrip_by p rest with
      | EmptyString => if p c then EmptyString else String c EmptyString
      | kept => String c kept
      end
  end.

Definition strip_by (p : ascii -> bool) (s : string) : string :=
  rstrip_by p (lstrip_by p s).

(** [s.strip()] *)
Definition strip (s : string) : string := strip_by is_space s.

Fixpoint mem_char (c : ascii) (set : string) : bool :=
  match set with
  | EmptyString => false
  | String d rest => Ascii.eqb c d || mem_char c rest
  end.

(** [s.rstrip(chars)] and [s.strip(chars)] *)
Definition rstrip_chars (chars s : string) : string :=
  rstrip_by (fun c => mem_char c chars) s.
Definition strip_chars (chars s : string) : string :=
  strip_by (fun c => mem_char c chars) s.

(** [s.replace(old, new)] for a non-empty [old]: leftmost occurrences,
    not overlapping.  [skip] counts the characters of a match still to be
    dropped. *)
Fixpoint replace_from (old new : string) (skip : nat) (s : string) : string :=
  match s with
  | EmptyString => EmptyString
  | String c rest =>
      match skip with
      | S k => replace_from old new k rest
      | O =>
          if String.prefix old s
          then (new ++ replace_from old new (String.length old - 1) rest)%string
          else String c (replace_from old new O rest)
      end
  end.

Definition replace (old new s : string) : string := replace_from old new O s.

(** [str < str]: by code points, the shorter string first on a tie. *)
Definition str_lt (a b : string) : bool := String.ltb a b.

(** *** [dict] and [list] operations *)

(** A dict built from pairs: the last binding of a key wins. *)
Fixpoint dict_get {V : Type} (key : string) (d : list (string * V)) : option V :=
  match d with
  | [] => None
  | (k, v) :: rest =>
      match dict_get key rest with
      | Some later => Some later
      | None => if String.eqb k key then Some v else None
      end
  end.

Definition dict_has {V : Type} (key : string) (d : list (string * V)) : bool :=
  match dict_get key d with Some _ => true | None => false end.

(** Number of distinct keys, the [len] of the dict. *)
Fixpoint dict_len {V : Type} (d : list (string * V)) : nat :=
  match d with
  | [] => O
  | (k, _) :: rest => if dict_has k rest then dict_len rest else S (dict_len rest)
  end.

(** [range(start, stop, step)] as the list it iterates over. *)
Definition py_range (start stop step : Z) : outcome (list Z) :=
  if step =? 0 then Raised ValueError
  else
    let count :=
      if 0 <? step then (stop - start + step - 1) / step
      else (start - stop - step - 1) / (- step) in
    Ok (map (fun k => start + Z.of_nat k * step) (seq 0 (Z.to_nat count))).

(** Slice bounds as Python clamps them. *)
Definition clamp_index (len i : Z) : Z :=
  if i <? 0 then Z.max 0 (i + len) else Z.min i len.

(** [l[lo:hi]] *)
Definition slice {A : Type} (l : list A) (lo hi : Z) : list A :=
  let len := Z.of_nat (List.length l) in
  let a := clamp_index len lo in
  let b := clamp_index len hi in
  firstn (Z.to_nat (b - a)) (skipn (Z.to_nat a) l).

(** [l[0]] and [l[-1]] *)
Definition first_item {A : Type} (l : list A) : outcome A :=
  match l with
  | [] => Raised IndexError
  | x :: _ => Ok x
  end.

Definition last_item {A : Type} (l : list A) : outcome A :=
  match rev l with
  | [] => Raised IndexError
  | x :: _ => Ok x
  end.

(** [list.sort(key=...)] with [str] keys: stable, and decided by [<] on
    the keys alone.  Elements are taken left to right and each is placed
    after every element that is not greater. *)
Fixpoint insert_by {A : Type} (key : A -> string) (x : A) (sorted : list A)
  : list A :=
  match sorted with
  | [] => [x]
  | y :: rest =>
      if str_lt (key x) (key y) then x :: y :: rest
      else y :: insert_by key x rest
  end.

Definition sort_by {A : Type} (key : A -> string) (l : list A) : list A :=
  fold_left (fun acc x => insert_by key x acc) l [].

(** *** [datetime] *)

(** [wall] counts the microseconds of the calendar fields from
    1970-01-01T00:00:00; [utcoffset] is [None] for a naive value, else the
    offset in microseconds. *)
Record datetime := {
  wall : Z;
  utcoffset : option Z;
}.

(** Ordering and subtraction agree on what they compare: calendar fields
    for two naive values, instants for two aware ones, and [TypeError] for
    a mixed pair. *)
Definition datetime_diff (a b : datetime) : outcome Z :=
  match utcoffset a, utcoffset b with
  | None, None => Ok (wall a - wall b)
  | Some oa, Some ob => Ok ((wall a - oa) - (wall b - ob))
  | _, _ => Raised TypeError
  end.

Definition datetime_ge (a b : datetime) : outcome bool :=
  match datetime_diff a b with
  | Ok d => Ok (0 <=? d)
  | Raised e => Raised e
  end.

Definition datetime_le (a b : datetime) : outcome bool :=
  match datetime_diff a b with
  | Ok d => Ok (d <=? 0)
  | Raised e => Raised e
  end.

(** [timedelta.total_seconds()] *)
Definition total_seconds (microseconds : Z) : Q := microseconds # 1000000.

(** ** The library functions the loader calls, on concrete text

    [Py.float], [Py.UUID] and [Py.fromisoformat] follow the documented
    input grammars of [float()], [uuid.UUID()] and
    [datetime.fromisoformat()] (the format
    [YYYY-MM-DD[*HH[:MM[:SS[.fff[fff]]]][+HH:MM[:SS[.ffffff]]]]] accepted
    by every CPython release that has the function).  [None] stands for
    the [ValueError] the function raises.  The simulator below takes
    these three functions as parameters; this module supplies them for the
    examples. *)
Module Py.

Definition digit_value (c : ascii) : option Z :=
  let n := code_point c in
  if (48 <=? n) && (n <=? 57) then Some (n - 48) else None.

Definition hex_value (c : ascii) : option Z :=
  let n := code_point c in
  if (48 <=? n) && (n <=? 57) then Some (n - 48)
  else if (97 <=? n) && (n <=? 102) then Some (n - 87)
  else if (65 <=? n) && (n <=? 70) then Some (n - 55)
  else None.

Definition is_some {A : Type} (o : option A) : bool :=
  match o with Some _ => true | None => false end.

Definition lower (c : ascii) : ascii :=
  let n := code_point c in
  if (65 <=? n) && (n <=? 90) then ascii_of_N (Z.to_N (n + 32)) else c.

Fixpoint lower_str (s : string) : string :=
  match s with
  | EmptyString => EmptyString
  | String c rest => String (lower c) (lower_str rest)
  end.

(** A run [digit (["_"] digit)*] in the given base, read greedily:
    the digits read and the text tail_text. *)
Fixpoint digit_run (value_of : ascii -> option Z) (s : string)
  : list Z * string :=
  match s with
  | EmptyString => ([], s)
  | String c rest =>
      match value_of c with
      | None => ([], s)
      | Some d =>
          match rest with
          | String "_"%char (String c2 _ as tail) =>
              if is_some (value_of c2)
              then let (ds, tail_text) := digit_run value_of tail in (d :: ds, tail_text)
              else ([d], rest)
          | _ => let (ds, tail_text) := digit_run value_of rest in (d :: ds, tail_text)
          end
      end
  end.

Definition number_of (base : Z) (ds : list Z) : Z :=
  fold_left (fun acc d => acc * base + d) ds 0.

Definition take_sign (s : string) : bool * string :=
  match s with
  | String "-"%char rest => (true, rest)
  | String "+"%char rest => (false, rest)
  | _ => (false, s)
  end.

(** *** [float(str)] *)

Definition exponent_of (s : string) : option Z :=
  match s with
  | EmptyString => Some 0
  | String c rest =>
      if Ascii.eqb (lower c) "e"%char then
        let (neg, body) := take_sign rest in
        match digit_run digit_value body with
        | ((_ :: _) as ds, EmptyString) =>
            Some (if neg then - number_of 10 ds else number_of 10 ds)
        | _ => None
        end
      else None
  end.

Definition scale (mantissa : Z) (exp10 : Z) : Q :=
  if 0 <=? exp10 then inject_Z (mantissa * 10 ^ exp10)
  else Qmake mantissa (Z.to_pos (10 ^ (- exp10))).

Definition float_number (s : string) : option Q :=
  let (whole, after_whole) := digit_run digit_value s in
  let parts :=
    match after_whole with
    | String "."%char rest =>
        let (frac, tail_text) := digit_run digit_value rest in
        match whole, frac with
        | [], [] => None
        | _, _ => Some (frac, tail_text)
        end
    | _ => match whole with [] => None | _ => Some ([], after_whole) end
    end in
  match parts with
  | None => None
  | Some (frac, tail_text) =>
      match exponent_of tail_text with
      | None => None
      | Some e =>
          Some (scale (number_of 10 (whole ++ frac))
                      (e - Z.of_nat (List.length frac)))
      end
  end.

Definition float (text : string) : option pyfloat :=
  let (neg, body) := take_sign (strip text) in
  let word := lower_str body in
  if String.eqb word "inf" || String.eqb word "infinity"
  then Some (Infinite neg)
  else if String.eqb word "nan" then Some NaN
  else match float_number body with
       | Some q => Some (Finite (if neg then Qopp q else q))
       | None => None
       end.

(** *** [uuid.UUID(str)] *)

(** [int(text, 16)]: blanks around, a sign, an optional [0x], digits. *)
Definition int16 (text : string) : option Z :=
  let (neg, body) := take_sign (strip text) in
  let digits :=
    match body with
    | String "0"%char (String x rest) =>
        if Ascii.eqb (lower x) "x"%char
        then match rest with
             | String "_"%char rest' => rest'
             | _ => rest
             end
        else body
    | _ => body
    end in
  match digit_run hex_value digits with
  | ((_ :: _) as ds, EmptyString) =>
      Some (if neg then - number_of 16 ds else number_of 16 ds)
  | _ => None
  end.

Definition UUID (text : string) : option Z :=
  let hex := replace "uuid:" "" (replace "urn:" "" text) in
  let hex := replace "-" "" (strip_chars "{}" hex) in
  if negb (String.length hex =? 32)%nat then None
  else match int16 hex with
       | Some n => if (0 <=? n) && (n <? 2 ^ 128) then Some n else None
       | None => None
       end.

(** *** [datetime.fromisoformat(str)] *)

Fixpoint fixed_digits (n : nat) (s : string) : option (Z * string) :=
  match n with
  | O => Some (0, s)
  | S k =>
      match s with
      | EmptyString => None
      | String c rest =>
          match digit_value c, fixed_digits k rest with
          | Some d, Some (v, tail_text) => Some (d * 10 ^ Z.of_nat k + v, tail_text)
          | _, _ => None
          end
      end
  end.

Definition expect (c : ascii) (s : string) : option string :=
  match s with
  | String d rest => if Ascii.eqb c d then Some rest else None
  | EmptyString => None
  end.

Definition is_leap (y : Z) : bool :=
  ((y mod 4 =? 0) && negb (y mod 100 =? 0)) || (y mod 400 =? 0).

Definition days_in_month (y m : Z) : Z :=
  if m =? 2 then (if is_leap y then 29 else 28)
  else if (m =? 4) || (m =? 6) || (m =? 9) || (m =? 11) then 30 else 31.

(** Days from 1970-01-01 to the given proleptic Gregorian date. *)
Definition days_from_civil (y m d : Z) : Z :=
  let y' := if m <=? 2 then y - 1 else y in
  let era := y' / 400 in
  let yoe := y' - era * 400 in
  let doy := (153 * (if 2 <? m then m - 3 else m + 9) + 2) / 5 + d - 1 in
  let doe := yoe * 365 + yoe / 4 - yoe / 100 + doy in
  era * 146097 + doe - 719468.

Definition parse_date (s : string) : option (Z * string) :=
  match fixed_digits 4 s with
  | None => None
  | Some (y, s1) =>
  match expect "-" s1 with
  | None => None
  | Some s2 =>
  match fixed_digits 2 s2 with
  | None => None
  | Some (m, s3) =>
  match expect "-" s3 with
  | None => None
  | Some s4 =>
  match fixed_digits 2 s4 with
  | None => None
  | Some (d, tail_text) =>
      if (1 <=? y) && (1 <=? m) && (m <=? 12) && (1 <=? d)
         && (d <=? days_in_month y m)
      then Some (days_from_civil y m d, tail_text) else None
  end end end end end.

(** [HH[:MM[:SS[.fff[fff]]]]] to (hour, minute, second, microsecond). *)
Definition parse_hh_mm_ss_ff (s : string) : option (Z * Z * Z * Z) :=
  match fixed_digits 2 s with
  | None => None
  | Some (h, EmptyString) => Some (h, 0, 0, 0)
  | Some (h, s1) =>
  match expect ":" s1 with
  | None => None
  | Some s2 =>
  match fixed_digits 2 s2 with
  | None => None
  | Some (m, EmptyString) => Some (h, m, 0, 0)
  | Some (m, s3) =>
  match expect ":" s3 with
  | None => None
  | Some s4 =>
  match fixed_digits 2 s4 with
  | None => None
  | Some (sec, EmptyString) => Some (h, m, sec, 0)
  | Some (sec, s5) =>
  match expect "." s5 with
  | None => None
  | Some frac =>
      match String.length frac, fixed_digits (String.length frac) frac with
      | 3%nat, Some (v, _) => Some (h, m, sec, v * 1000)
      | 6%nat, Some (v, _) => Some (h, m, sec, v)
      | _, _ => None
      end
  end end end end end end.

Definition micros (f : Z * Z * Z * Z) : Z :=
  let '(h, m, s, us) := f in ((h * 60 + m) * 60 + s) * 1000000 + us.

(** The text before the first sign, the sign and the text after it. *)
Fixpoint split_offset (s : string) : string * option (bool * string) :=
  match s with
  | EmptyString => (EmptyString, None)
  | String c rest =>
      if Ascii.eqb c "+"%char then (EmptyString, Some (false, rest))
      else if Ascii.eqb c "-"%char then (EmptyString, Some (true, rest))
      else let (before, off) := split_offset rest in (String c before, off)
  end.

Definition parse_offset (off : option (bool * string)) : option (option Z) :=
  match off with
  | None => Some None
  | Some (neg, text) =>
      let n := String.length text in
      if negb ((n =? 5) || (n =? 8) || (n =? 15))%nat then None
      else match parse_hh_mm_ss_ff text with
           | None => None
           | Some f =>
               let us := micros f in
               if us <? 86400000000
               then Some (Some (if neg then - us else us)) else None
           end
  end.

Definition fromisoformat (s : string) : option datetime :=
  match parse_date s with
  | None => None
  | Some (days, EmptyString) =>
      Some {| wall := days * 86400000000; utcoffset := None |}
  | Some (days, String _ time) =>
      let (clock, off) := split_offset time in
      match parse_hh_mm_ss_ff clock, parse_offset off with
      | Some (h, m, sec, us), Some offset =>
          if (h <? 24) && (m <? 60) && (sec <? 60)
          then Some {| wall := days * 86400000000 + micros (h, m, sec, us);
                       utcoffset := offset |}
          else None
      | _, _ => None
      end
  end.

End Py.

(** ** The outside world and what the program does to it *)

(** The arguments of [session.post]. *)
Record request := {
  url : string;
  data : string;
  headers : list (string * string);
  timeout : Z;
}.

(** [response.content] is empty, or parses with [response.json()], or
    does not. *)
Inductive response_content :=
| NoContent
| JsonContent (j : json)
| NotJson.

Record response := {
  status_code : Z;
  content : response_content;
  response_headers : list (string * string);
}.

(** [session.post] returns a response or raises a
    [requests.exceptions.RequestException] with a message. *)
Inductive post_result :=
| Responds (r : response)
| Fails (cause : string).

(** What [open] and [csv.reader] make of a path: the records of the
    file, the header line first. *)
Inductive csv_file :=
| Missing
| Unreadable
| Records (rows : list (list string)).

(** The environment.  The calls whose answer may change from one call to
    the next take the number of earlier calls: serialisation is not
    assumed stable, and the server answers each request as it likes. *)
Record World := {
  open_csv : string -> csv_file;
  json_dumps : nat -> list reading -> string;
  utcnow_isoformat : nat -> string;
  uuid4 : nat -> string;
  session_post : nat -> request -> post_result;
}.

(** The library functions of the loader and of the scheduler; [None] is a
    [ValueError]. *)
Record Library := {
  float_of_str : string -> option pyfloat;
  uuid_of_str : string -> option Z;
  fromisoformat : string -> option datetime;
}.

Definition cpython : Library := {|
  float_of_str := Py.float;
  uuid_of_str := Py.UUID;
  fromisoformat := Py.fromisoformat;
|}.

(** What [print] writes, by line of the source. *)
Inductive message :=
| MsgWarnTimestamp (row_num : Z) (text : string)
| MsgWarnSensor (row_num : Z) (text : string)
| MsgWarnSkip (row_num : Z) (e : exn)
| MsgLoading (path : string)
| MsgNoValidReadings
| MsgLoaded (count : nat)
| MsgTimeRange (first last : string)
| MsgSpeed (speed : Q)
| MsgBatchSize (batch_size : Z)
| MsgDeviceId (id : string)
| MsgRule
| MsgWaiting (delay : Q)
| MsgSending (index total : Z) (count : nat)
| MsgProcessed (processed : json)
| MsgErrorCount (count : nat)
| MsgErrorItem (item : json)
| MsgMoreErrors (count : Z)
| MsgBatchFailed (status : Z)
| MsgErrorDetail (detail : json)
| MsgErrorCause (cause : string)
| MsgRateLimit (remaining : string)
| MsgBlank
| MsgComplete
| MsgTotalSent (count : Z)
| MsgTotalErrors (count : Z)
| MsgSuccessRate (percent : Q).

Inductive event :=
| Print (m : message)
| Sleep (seconds : Q)
| Post (r : request).

(** The state threaded through a run: the events so far, oldest first,
    how often each part of the world was called, and the three locals
    [simulate_ingestion] updates in its loop. *)
Record state := {
  trace : list event;
  dumps_calls : nat;
  clock_calls : nat;
  uuid_calls : nat;
  post_calls : nat;
  total_sent : Z;
  total_errors : Z;
  last_timestamp : option string;
}.

Definition initial_state : state := {|
  trace := []; dumps_calls := 0; clock_calls := 0; uuid_calls := 0;
  post_calls := 0; total_sent := 0; total_errors := 0;
  last_timestamp := None;
|}.

Definition emit (e : event) (s : state) : state := {|
  trace := trace s ++ [e];
  dumps_calls := dumps_calls s; clock_calls := clock_calls s;
  uuid_calls := uuid_calls s; post_calls := post_calls s;
  total_sent := total_sent s; total_errors := total_errors s;
  last_timestamp := last_timestamp s;
|}.

Definition count_dumps (s : state) : state := {|
  trace := trace s;
  dumps_calls := S (dumps_calls s); clock_calls := clock_calls s;
  uuid_calls := uuid_calls s; post_calls := post_calls s;
  total_sent := total_sent s; total_errors := total_errors s;
  last_timestamp := last_timestamp s;
|}.

Definition count_clock (s : state) : state := {|
  trace := trace s;
  dumps_calls := dumps_calls s; clock_calls := S (clock_calls s);
  uuid_calls := uuid_calls s; post_calls := post_calls s;
  total_sent := total_sent s; total_errors := total_errors s;
  last_timestamp := last_timestamp s;
|}.

Definition count_uuid (s : state) : state := {|
  trace := trace s;
  dumps_calls := dumps_calls s; clock_calls := clock_calls s;
  uuid_calls := S (uuid_calls s); post_calls := post_calls s;
  total_sent := total_sent s; total_errors := total_errors s;
  last_timestamp := last_timestamp s;
|}.

Definition count_post (s : state) : state := {|
  trace := trace s;
  dumps_calls := dumps_calls s; clock_calls := clock_calls s;
  uuid_calls := uuid_calls s; post_calls := S (post_calls s);
  total_sent := total_sent s; total_errors := total_errors s;
  last_timestamp := last_timestamp s;
|}.

Definition set_total_sent (n : Z) (s : state) : state := {|
  trace := trace s;
  dumps_calls := dumps_calls s; clock_calls := clock_calls s;
  uuid_calls := uuid_calls s; post_calls := post_calls s;
  total_sent := n; total_errors := total_errors s;
  last_timestamp := last_timestamp s;
|}.

Definition set_total_errors (n : Z) (s : state) : state := {|
  trace := trace s;
  dumps_calls := dumps_calls s; clock_calls := clock_calls s;
  uuid_calls := uuid_calls s; post_calls := post_calls s;
  total_sent := total_sent s; total_errors := n;
  last_timestamp := last_timestamp s;
|}.

Definition set_last_timestamp (t : option string) (s : state) : state := {|
  trace := trace s;
  dumps_calls := dumps_calls s; clock_calls := clock_calls s;
  uuid_calls := uuid_calls s; post_calls := post_calls s;
  total_sent := total_sent s; total_errors := total_errors s;
  last_timestamp := t;
|}.

(** *** The monad of state and exceptions *)

Definition M (A : Type) : Type := state -> outcome A * state.

Definition ret {A : Type} (a : A) : M A := fun s => (Ok a, s).

Definition raise {A : Type} (e : exn) : M A := fun s => (Raised e, s).

Definition bind {A B : Type} (m : M A) (k : A -> M B) : M B :=
  fun s =>
    match m s with
    | (Ok a, s') => k a s'
    | (Raised e, s') => (Raised e, s')
    end.

Declare Scope monad_scope.
Delimit Scope monad_scope with monad.
Notation "x <- m ;; k" := (bind m (fun x => k))
  (at level 61, m at next level, right associativity) : monad_scope.
Notation "m ;; k" := (bind m (fun _ => k))
  (at level 61, right associativity) : monad_scope.
Local Open Scope monad_scope.

(** A pure computation that may raise. *)
Definition lift {A : Type} (o : outcome A) : M A := fun s => (o, s).

Definition get {A : Type} (f : state -> A) : M A := fun s => (Ok (f s), s).

Definition modify (f : state -> state) : M unit := fun s => (Ok tt, f s).

Definition print (m : message) : M unit := modify (emit (Print m)).

(** [try: body except <handled classes>: handler]: the state reached
    when the exception was raised is kept. *)
Definition try_except {A : Type} (body : M A) (handled : exn -> bool)
    (handler : exn -> M A) : M A :=
  fun s =>
    match body s with
    | (Ok a, s') => (Ok a, s')
    | (Raised e, s') => if handled e then handler e s' else (Raised e, s')
    end.

(** [for x in items: body x] *)
Fixpoint for_each {A : Type} (body : A -> M unit) (items : list A) : M unit :=
  match items with
  | [] => ret tt
  | x :: rest => body x ;; for_each body rest
  end.

(** A list comprehension with a condition that may raise. *)
Fixpoint keep_if {A : Type} (cond : A -> outcome bool) (items : list A)
  : outcome (list A) :=
  match items with
  | [] => Ok []
  | x :: rest =>
      match cond x with
      | Raised e => Raised e
      | Ok b =>
          match keep_if cond rest with
          | Raised e => Raised e
          | Ok kept => Ok (if b then x :: kept else kept)
          end
      end
  end.

(** Truth value of an optional [str]: [None] and [''] are false. *)
Definition truthy (s : option string) : bool :=
  match s with
  | None => false
  | Some EmptyString => false
  | Some _ => true
  end.

Definition Qlt_bool (a b : Q) : bool := negb (Qle_bool b a).

(** *** Operations on parsed JSON, with the exceptions Python raises *)

(** [len(x)] *)
Definition json_len (j : json) : outcome nat :=
  match j with
  | JArr items => Ok (List.length items)
  | JStr s => Ok (String.length s)
  | JObj fields => Ok (dict_len fields)
  | _ => Raised TypeError
  end.

Fixpoint chars_of (s : string) : list json :=
  match s with
  | EmptyString => []
  | String c rest => JStr (String c EmptyString) :: chars_of rest
  end.

(** The items [for error in x[:3]] visits.  A dict cannot be sliced. *)
Definition json_first3 (j : json) : outcome (list json) :=
  match j with
  | JArr items => Ok (firstn 3 items)
  | JStr s => Ok (firstn 3 (chars_of s))
  | _ => Raised TypeError
  end.

(** [key in x] *)
Definition json_contains (key : string) (j : json) : outcome bool :=
  match j with
  | JObj fields => Ok (dict_has key fields)
  | JArr items =>
      Ok (existsb (fun x => match x with
                            | JStr s => String.eqb s key
                            | _ => false
                            end) items)
  | JStr s => Ok (match String.index 0 key s with Some _ => true | None => false end)
  | _ => Raised TypeError
  end.

(** [x[key]] with a [str] key *)
Definition json_item (key : string) (j : json) : outcome json :=
  match j with
  | JObj fields =>
      match dict_get key fields with
      | Some v => Ok v
      | None => Raised KeyError
      end
  | _ => Raised TypeError
  end.

(** [x.get(key, default)]: only a dict has the method. *)
Definition json_get (key : string) (default : json) (j : json) : outcome json :=
  match j with
  | JObj fields =>
      match dict_get key fields with
      | Some v => Ok v
      | None => Ok default
      end
  | _ => Raised AttributeError
  end.

(** [n + x] for an [int] [n]: [bool] is an [int]. *)
Definition int_add (n : Z) (j : json) : outcome Z :=
  match j with
  | JNum k => Ok (n + k)
  | JBool b => Ok (n + Z.b2z b)
  | _ => Raised TypeError
  end.

(** ** The simulator *)

(** The dict [send_readings] returns: with [headers] after a response,
    with [error] after a transport failure. *)
Record result := {
  result_status_code : Z;
  result_response : json;
  result_headers : option (list (string * string));
  result_error : option string;
}.

(** [__init__]; the [requests.Session] is part of the world. *)
Definition init (url secret device : string) : IngestionSimulator := {|
  api_url := rstrip_chars "/" url;
  hmac_secret := secret;
  device_id := device;
|}.

(** [DictReader] pairs the field names with the fields of a record and
    fills the names left over with [None]; fields beyond the names are
    filed under a key that is not a [str]. *)
Definition dict_row (fieldnames record : list string)
  : list (string * option string) :=
  combine fieldnames
    (map Some record
     ++ repeat None (List.length fieldnames - List.length record)).

Definition mem_str (x : string) (l : list string) : bool :=
  existsb (String.eqb x) l.

Section Simulator.

Variable lib : Library.
Variable world : World.
Variable self : IngestionSimulator.

(** [datetime.fromisoformat(text.replace('Z', '+00:00'))] *)
Definition parse_instant (text : string) : outcome datetime :=
  match fromisoformat lib (replace "Z" "+00:00" text) with
  | Some d => Ok d
  | None => Raised ValueError
  end.

(** *** [send_readings] *)

Definition dumps (readings : list reading) : M string :=
  fun s => (Ok (json_dumps world (dumps_calls s) readings), count_dumps s).

Definition utcnow : M string :=
  fun s => (Ok (utcnow_isoformat world (clock_calls s)), count_clock s).

Definition new_uuid4 : M string :=
  fun s => (Ok (uuid4 world (uuid_calls s)), count_uuid s).

Definition post (r : request) : M post_result :=
  fun s => (Ok (session_post world (post_calls s) r),
            count_post (emit (Post r) s)).

Definition request_failed (cause : string) : result := {|
  result_status_code := 0;
  result_response := JObj [];
  result_headers := None;
  result_error := Some cause;
|}.

(** The [try] block around [session.post]: what is returned for each
    answer of the transport. *)
Definition normalise (answer : post_result) : result :=
  match answer with
  | Responds r =>
      match content r with
      | NoContent =>
          {| result_status_code := status_code r;
             result_response := JObj [];
             result_headers := Some (response_headers r);
             result_error := None |}
      | JsonContent j =>
          {| result_status_code := status_code r;
             result_response := j;
             result_headers := Some (response_headers r);
             result_error := None |}
      | NotJson =>
          (* requests.exceptions.JSONDecodeError is a RequestException *)
          request_failed "JSONDecodeError"
      end
  | Fails cause => request_failed cause
  end.

Definition send_readings (readings : list reading) : M result :=
  (* payload = {"readings": readings}; body = json.dumps(payload, ...) *)
  body <- dumps readings ;;
  now <- utcnow ;;
  let timestamp := (now ++ "Z")%string in
  let signature := generate_hmac_signature self body timestamp in
  idempotency_key <- new_uuid4 ;;
  let headers :=
    [("Content-Type", "application/json");
     ("X-Timestamp", timestamp);
     ("X-Device-Id", device_id self);
     ("X-Signature", signature);
     ("Idempotency-Key", idempotency_key)] in
  answer <- post {| url := (api_url self ++ "/api/ingest/readings")%string;
                    data := body;
                    headers := headers;
                    timeout := 30 |} ;;
  ret (normalise answer).

(** *** [load_csv_data] *)

(** The body of the inner [try] for one row: [None] is [continue]. *)
Definition read_row (row_num : Z) (row : list (string * option string))
  : M (option reading) :=
  timestamp_str <-
    match dict_get "timestamp" row with
    | None => raise KeyError
    | Some None => raise AttributeError
    | Some (Some text) => ret (strip text)
    end ;;
  sensor <-
    match dict_get "sensor_id" row with
    | None => raise KeyError
    | Some None => raise AttributeError
    | Some (Some text) => ret (strip text)
    end ;;
  temperature <-
    match dict_get "temperature_c" row with
    | None => raise KeyError
    | Some None => raise TypeError
    | Some (Some text) =>
        match float_of_str lib text with
        | Some v => ret v
        | None => raise ValueError
        end
    end ;;
  match parse_instant timestamp_str with
  | Raised _ =>
      print (MsgWarnTimestamp row_num timestamp_str) ;; ret None
  | Ok _ =>
      match uuid_of_str lib sensor with
      | None => print (MsgWarnSensor row_num sensor) ;; ret None
      | Some _ =>
          ret (Some {| ts := timestamp_str;
                       sensor_id := sensor;
                       value := temperature |})
      end
  end.

Definition is_row_error (e : exn) : bool :=
  match e with
  | ValueError | KeyError => true
  | _ => false
  end.

(** [for row_num, row in enumerate(reader, start=2)]: the reader passes
    over empty records without counting them. *)
Fixpoint read_rows (fieldnames : list string) (row_num : Z)
    (records : list (list string)) (readings : list reading)
  : M (list reading) :=
  match records with
  | [] => ret readings
  | [] :: rest => read_rows fieldnames row_num rest readings
  | record :: rest =>
      parsed <- try_except
                  (read_row row_num (dict_row fieldnames record))
                  is_row_error
                  (fun e => print (MsgWarnSkip row_num e) ;; ret None) ;;
      read_rows fieldnames (row_num + 1) rest
        match parsed with
        | Some r => readings ++ [r]
        | None => readings
        end
  end.

Definition required_columns : list string :=
  ["timestamp"; "sensor_id"; "temperature_c"].

Definition load_csv_data (path : string) : M (list reading) :=
  try_except
    match open_csv world path with
    | Missing => raise FileNotFoundError
    | Unreadable => raise OSError
    | Records records =>
        let fieldnames := match records with [] => [] | h :: _ => h end in
        if negb (forallb (fun c => mem_str c fieldnames) required_columns)
        then raise ValueError
        else read_rows fieldnames 2 (tl records) []
    end
    (fun _ => true)
    (fun e => match e with
              | FileNotFoundError => raise FileNotFoundError
              | _ => raise PyException
              end).

(** *** [simulate_ingestion] *)

Definition sleep (seconds : Q) : M unit := modify (emit (Sleep seconds)).

(** [max(0, x)] *)
Definition max0 (x : Q) : Q := if Qlt_bool 0 x then x else 0%Q.

(** The wait before a batch: [if last_timestamp and speed > 0: ...]. *)
Definition pace (speed : Q) (batch : list reading) : M unit :=
  last <- get last_timestamp ;;
  if truthy last && Qlt_bool 0 speed then
    first <- lift (first_item batch) ;;
    current_time <- lift (parse_instant (ts first)) ;;
    last_time <- lift (parse_instant
                         match last with Some t => t | None => "" end) ;;
    difference <- lift (datetime_diff current_time last_time) ;;
    let time_diff := total_seconds difference in
    let delay := max0 (time_diff / speed) in
    if Qlt_bool 0 delay
    then print (MsgWaiting delay) ;; sleep delay
    else ret tt
  else ret tt.

(** [if result['status_code'] == 200: ... else: ...] *)
Definition record_result (batch : list reading) (r : result) : M unit :=
  if result_status_code r =? 200 then
    processed <- lift (json_get "processed" (JNum 0) (result_response r)) ;;
    sent <- get total_sent ;;
    sum <- lift (int_add sent processed) ;;
    modify (set_total_sent sum) ;;
    print (MsgProcessed processed) ;;
    has_errors <- lift (json_contains "errors" (result_response r)) ;;
    if has_errors : bool then
      errors <- lift (json_item "errors" (result_response r)) ;;
      error_count <- lift (json_len errors) ;;
      failed <- get total_errors ;;
      modify (set_total_errors (failed + Z.of_nat error_count)) ;;
      print (MsgErrorCount error_count) ;;
      shown <- lift (json_first3 errors) ;;
      for_each (fun error => print (MsgErrorItem error)) shown ;;
      if 3 <? Z.of_nat error_count
      then print (MsgMoreErrors (Z.of_nat error_count - 3))
      else ret tt
    else ret tt
  else
    failed <- get total_errors ;;
    modify (set_total_errors (failed + Z.of_nat (List.length batch))) ;;
    print (MsgBatchFailed (result_status_code r)) ;;
    has_error <- lift (json_contains "error" (result_response r)) ;;
    if has_error : bool then
      error <- lift (json_item "error" (result_response r)) ;;
      detail <- lift (json_get "message" (JStr "Unknown error") error) ;;
      print (MsgErrorDetail detail)
    else
      match result_error r with
      | Some cause => print (MsgErrorCause cause)
      | None => ret tt
      end.

(** [if 'X-RateLimit-Remaining' in result.get('headers', {}): ...] *)
Definition show_rate_limit (r : result) : M unit :=
  match result_headers r with
  | Some received =>
      match dict_get "X-RateLimit-Remaining" received with
      | Some remaining => print (MsgRateLimit remaining)
      | None => ret tt
      end
  | None => ret tt
  end.

(** The loop body from [# Send batch] to its end. *)
Definition deliver (batch_size : Z) (readings : list reading) (i : Z)
    (batch : list reading) : M unit :=
  print (MsgSending (i / batch_size + 1)
           ((Z.of_nat (List.length readings) + batch_size - 1) / batch_size)
           (List.length batch)) ;;
  r <- send_readings batch ;;
  record_result batch r ;;
  show_rate_limit r ;;
  last <- lift (last_item batch) ;;
  modify (set_last_timestamp (Some (ts last))) ;;
  print MsgBlank.

(** The body of [for i in range(0, len(readings), batch_size)]. *)
Definition process_batch (speed : Q) (batch_size : Z)
    (readings : list reading) (i : Z) : M unit :=
  let batch := slice readings i (i + batch_size) in
  pace speed batch ;;
  deliver batch_size readings i batch.

(** [[r for r in readings if parse(r['ts']) >= bound]], and [<=]. *)
Definition not_before (bound : datetime) (r : reading) : outcome bool :=
  match parse_instant (ts r) with
  | Ok d => datetime_ge d bound
  | Raised e => Raised e
  end.

Definition not_after (bound : datetime) (r : reading) : outcome bool :=
  match parse_instant (ts r) with
  | Ok d => datetime_le d bound
  | Raised e => Raised e
  end.

Definition filter_bound (bound : option string)
    (cond : datetime -> reading -> outcome bool) (readings : list reading)
  : M (list reading) :=
  if truthy bound then
    limit <- lift (parse_instant
                     match bound with Some t => t | None => "" end) ;;
    lift (keep_if (cond limit) readings)
  else ret readings.

(** The part of [simulate_ingestion] after the time filter. *)
Definition replay (speed : Q) (batch_size : Z) (filtered : list reading)
  : M unit :=
  let readings := sort_by ts filtered in
  print (MsgLoaded (List.length readings)) ;;
  first <- lift (first_item readings) ;;
  last <- lift (last_item readings) ;;
  print (MsgTimeRange (ts first) (ts last)) ;;
  print (MsgSpeed speed) ;;
  print (MsgBatchSize batch_size) ;;
  print (MsgDeviceId (device_id self)) ;;
  print MsgRule ;;
  modify (set_total_sent 0) ;;
  modify (set_total_errors 0) ;;
  modify (set_last_timestamp None) ;;
  starts <- lift (py_range 0 (Z.of_nat (List.length readings)) batch_size) ;;
  for_each (process_batch speed batch_size readings) starts ;;
  print MsgRule ;;
  print MsgComplete ;;
  sent <- get total_sent ;;
  print (MsgTotalSent sent) ;;
  failed <- get total_errors ;;
  print (MsgTotalErrors failed) ;;
  match readings with
  | [] => raise ZeroDivisionError
  | _ =>
      print (MsgSuccessRate
               (inject_Z sent / inject_Z (Z.of_nat (List.length readings))
                * 100)%Q)
  end.

Definition simulate_ingestion (csv_file : string) (speed : Q)
    (start_time end_time : option string) (batch_size : Z) : M unit :=
  print (MsgLoading csv_file) ;;
  loaded <- load_csv_data csv_file ;;
  match loaded with
  | [] => print MsgNoValidReadings
  | _ =>
      from_start <- filter_bound start_time not_before loaded ;;
      in_range <- filter_bound end_time not_after from_start ;;
      replay speed batch_size in_range
  end.

End Simulator.

Arguments generate_hmac_signature : simpl never.

(** ** The command line *)

(** The namespace [parse_args] returns: [--csv], [--speed], [--start],
    [--end], [--batch-size], [--device-id] and [--api-url].  The speed is
    a finite number. *)
Record arguments := {
  args_csv : string;
  args_speed : Q;
  args_start : option string;
  args_end : option string;
  args_batch_size : Z;
  args_device_id : option string;
  args_api_url : option string;
}.

(** The two lines [main] itself prints, each before [sys.exit(1)]. *)
Inductive main_message :=
| MsgSecretRequired
| MsgError (e : exn).

(** How [main] ends: it returns, or it prints a line and leaves through
    [sys.exit(code)]. *)
Inductive ending :=
| Returned
| Exited (code : Z) (said : main_message).

(** [a or b] for an optional [str] [a] *)
Definition or_else (a : option string) (b : string) : string :=
  match a with
  | Some text => if truthy a then text else b
  | None => b
  end.

(** [main] from [args = parser.parse_args()] on.  [getenv] is
    [os.getenv] after [load_dotenv()].  The run handed to
    [simulate_ingestion] is never interrupted from the keyboard. *)
Definition main (lib : Library) (world : World)
    (getenv : string -> option string) (args : arguments)
  : state -> ending * state :=
  fun s =>
    let url :=
      or_else (args_api_url args)
        match getenv "NEXT_PUBLIC_SITE_URL" with
        | Some text => text
        | None => "http://localhost:3000"
        end in
    let secret := getenv "HMAC_SECRET" in
    let (device, s1) :=
      if truthy (args_device_id args)
      then (or_else (args_device_id args) "", s)
      else (uuid4 world (uuid_calls s), count_uuid s) in
    if negb (truthy secret) then (Exited 1 MsgSecretRequired, s1)
    else
      let simulator := init url (or_else secret "") device in
      match simulate_ingestion lib world simulator (args_csv args)
              (args_speed args) (args_start args) (args_end args)
              (args_batch_size args) s1 with
      | (Ok _, s2) => (Returned, s2)
      | (Raised e, s2) => (Exited 1 (MsgError e), s2)
      end.

(** ** Vocabulary of the properties *)

(** [keeps f m]: running [m] does not change the component [f] of the
    state, whether [m] returns or raises. *)
Definition keeps {A B : Type} (f : state -> B) (m : M A) : Prop :=
  forall s, f (snd (m s)) = f s.

(** [emits P m]: running [m] only appends events, and each of them
    satisfies [P]. *)
Definition emits {A : Type} (P : event -> Prop) (m : M A) : Prop :=
  forall s, exists added, trace (snd (m s)) = trace s ++ added /\ Forall P added.

Definition is_print (e : event) : Prop :=
  match e with Print _ => True | _ => False end.

Definition not_sleep (e : event) : Prop :=
  match e with Sleep _ => False | _ => True end.

Definition not_post (e : event) : Prop :=
  match e with Post _ => False | _ => True end.

(** The events a computation added to the trace of [s]. *)
Definition added_since (s : state) (s' : state) : list event :=
  skipn (List.length (trace s)) (trace s').

(** What a run does to the network and to the clock: the waits and the
    request bodies, in order. *)
Inductive step :=
| Wait (seconds : Q)
| Send (body : string).

Definition step_of (e : event) : list step :=
  match e with
  | Sleep seconds => [Wait seconds]
  | Post r => [Send (data r)]
  | Print _ => []
  end.

Definition steps (events : list event) : list step := flat_map step_of events.

(** A list of steps that is empty or begins with a request. *)
Definition begins_with_send (l : list step) : Prop :=
  l = [] \/ exists body more, l = Send body :: more.

Definition last_reading (batch : list reading) : option reading :=
  match rev batch with
  | [] => None
  | r :: _ => Some r
  end.

(** The batches of a run: the slices the loop takes, in order. *)
Definition batches_of (readings : list reading) (batch_size : Z)
  : list (list reading) :=
  match py_range 0 (Z.of_nat (List.length readings)) batch_size with
  | Ok starts => map (fun i => slice readings i (i + batch_size)) starts
  | Raised _ => []
  end.

(** The number of batches for a positive batch size, as [range] counts
    them. *)
Definition batch_count (n : nat) (size : Z) : nat :=
  Z.to_nat ((Z.of_nat n - 0 + size - 1) / size).

(** The delay of the specification: the timestamp of the first reading
    of a batch minus that of the last reading of the batch before it,
    divided by the speed; [None] where the difference is not defined. *)
Definition delay_between (lib : Library) (speed : Q) (previous next : reading)
  : option Q :=
  match parse_instant lib (ts next), parse_instant lib (ts previous) with
  | Ok current_time, Ok last_time =>
      match datetime_diff current_time last_time with
      | Ok difference => Some (total_seconds difference / speed)%Q
      | Raised _ => None
      end
  | _, _ => None
  end.

(** The wait the specification asks for before a batch: none before the
    first batch, none unless the speed and the delay are positive. *)
Definition wait_before (lib : Library) (speed : Q) (previous : option reading)
    (batch : list reading) : list step :=
  match previous, batch with
  | Some p, first :: _ =>
      if Qlt_bool 0 speed then
        match delay_between lib speed p first with
        | Some delay => if Qlt_bool 0 delay then [Wait delay] else []
        | None => []
        end
      else []
  | _, _ => []
  end.

(** The schedule of the specification for a list of batches, the [k]-th
    serialisation being the next one. *)
Fixpoint schedule (lib : Library) (world : World) (speed : Q) (k : nat)
    (previous : option reading) (batches : list (list reading)) : list step :=
  match batches with
  | [] => []
  | batch :: rest =>
      wait_before lib speed previous batch
      ++ Send (json_dumps world k batch)
         :: schedule lib world speed (S k) (last_reading batch) rest
  end.

(** The request bodies among the steps, and the serialisations of a list
    of batches, the [k]-th serialisation being the next one. *)
Definition bodies (l : list step) : list string :=
  flat_map (fun st => match st with Send body => [body] | Wait _ => [] end) l.

Fixpoint serialised (world : World) (k : nat) (batches : list (list reading))
  : list string :=
  match batches with
  | [] => []
  | batch :: rest => json_dumps world k batch :: serialised world (S k) rest
  end.

(** The present fields of a success body have the types of the wire
    contract: an integer [processed], a list [errors]. *)
Definition well_typed_body (fields : list (string * json)) : Prop :=
  (dict_get "processed" fields = None
   \/ exists n, dict_get "processed" fields = Some (JNum n))
  /\ (dict_get "errors" fields = None
      \/ exists items, dict_get "errors" fields = Some (JArr items)).

(** A request as [send_readings] builds it for the simulator [self]: the
    endpoint under the base URL, the timeout, the five headers, and a
    signature of the body sent with the timestamp sent. *)
Definition well_formed_request (self : IngestionSimulator) (r : request) : Prop :=
  url r = (api_url self ++ "/api/ingest/readings")%string
  /\ timeout r = 30
  /\ map fst (headers r)
     = ["Content-Type"; "X-Timestamp"; "X-Device-Id"; "X-Signature";
        "Idempotency-Key"]
  /\ dict_get "Content-Type" (headers r) = Some "application/json"
  /\ dict_get "X-Device-Id" (headers r) = Some (device_id self)
  /\ exists now,
       dict_get "X-Timestamp" (headers r) = Some (now ++ "Z")%string
       /\ dict_get "X-Signature" (headers r)
          = Some (generate_hmac_signature self (data r) (now ++ "Z")).

Definition signed_request (self : IngestionSimulator) (e : event) : Prop :=
  match e with
  | Post r => well_formed_request self r
  | _ => True
  end.

(** A sleep, if the event is one, lasts a positive time. *)
Definition positive_sleep (e : event) : Prop :=
  match e with
  | Sleep seconds => (0 < seconds)%Q
  | _ => True
  end.

(** The [Idempotency-Key] headers of the requests among the events. *)
Definition idempotency_keys (events : list event) : list (option string) :=
  flat_map (fun e => match e with
                     | Post r => [dict_get "Idempotency-Key" (headers r)]
                     | _ => []
                     end) events.

(** [draws_keys world m]: running [m] appends events, and the requests
    among them carry, in order, the UUIDs [m] drew from the world. *)
Definition draws_keys (world : World) {A : Type} (m : M A) : Prop :=
  forall s, exists added n,
    trace (snd (m s)) = trace s ++ added
    /\ uuid_calls (snd (m s)) = (uuid_calls s + n)%nat
    /\ idempotency_keys added
       = map (fun k => Some (uuid4 world k)) (seq (uuid_calls s) n).



(** The progress lines among the events: the number of the batch, the
    number of batches and the size of the batch. *)
Definition progress (events : list event) : list (Z * Z * nat) :=
  flat_map (fun e => match e with
                     | Print (MsgSending index total count) =>
                         [(index, total, count)]
                     | _ => []
                     end) events.

Definition not_progress (e : event) : Prop :=
  match e with
  | Print (MsgSending _ _ _) => False
  | _ => True
  end.

(** The requests among the events. *)
Definition requests (events : list event) : list request :=
  flat_map (fun e => match e with Post r => [r] | _ => [] end) events.

(** The three warnings of the loader. *)
Definition is_warning (e : event) : Prop :=
  match e with
  | Print (MsgWarnTimestamp _ _) | Print (MsgWarnSensor _ _)
  | Print (MsgWarnSkip _ _) => True
  | _ => False
  end.

(** The records [DictReader] yields: those after the header that are not
    empty. *)
Definition data_rows (records : list (list string)) : list (list string) :=
  filter (fun record => match record with [] => false | _ => true end)
    (tl records).

(** A reading as the loader validates it: the timestamp and the sensor
    id are stripped, the timestamp parses and the sensor id is a UUID. *)
Definition valid_reading (lib : Library) (r : reading) : Prop :=
  strip (ts r) = ts r
  /\ strip (sensor_id r) = sensor_id r
  /\ (exists d, parse_instant lib (ts r) = Ok d)
  /\ (exists u, uuid_of_str lib (sensor_id r) = Some u).

(** [n] times the character ["/"]. *)
Fixpoint slashes (n : nat) : string :=
  match n with
  | O => EmptyString
  | S k => String "/" (slashes k)
  end.

(** Sorted by the text of the keys: no element has a key below that of
    an element before it. *)
Definition sorted_by_text {A : Type} (key : A -> string) (l : list A) : Prop :=
  StronglySorted (fun a b => str_lt (key b) (key a) = false) l.

(** The elements with a given key, in their order. *)
Definition with_key {A : Type} (key : A -> string) (k : string) (l : list A)
  : list A :=
  filter (fun x => String.eqb (key x) k) l.

(** The readings a completed time filter keeps. *)
Definition passes (cond : reading -> outcome bool) (r : reading) : bool :=
  match cond r with
  | Ok b => b
  | Raised _ => false
  end.

(** The readings a time bound lets through: all of them when the bound
    is absent, empty or no timestamp, else those that pass the
    comparison with it. *)
Definition within (lib : Library) (bound : option string)
    (cond : datetime -> reading -> outcome bool) (readings : list reading)
  : list reading :=
  if truthy bound then
    match parse_instant lib match bound with Some t => t | None => "" end with
    | Ok limit => filter (passes (cond limit)) readings
    | Raised _ => readings
    end
  else readings.



(** ** Scenarios *)

Module Scenario.

Definition sensor : string := "550e8400-e29b-41d4-a716-446655440031".

Definition header : list string := ["timestamp"; "sensor_id"; "temperature_c"].

Definition me : IngestionSimulator :=
  init "http://localhost:3000/" "s3cr3t" "d1".

(** A world with one CSV file, whatever the path, and a server given
    by its answers; the serialisation lists the timestamps. *)
Definition world_of (records : list (list string))
    (server : nat -> request -> post_result) : World := {|
  open_csv := fun _ => Records records;
  json_dumps := fun _ readings => String.concat "," (map ts readings);
  utcnow_isoformat := fun _ => "2024-05-05T10:00:00.000001";
  uuid4 := fun _ => "0b0e7bd0-5c1c-4f0a-9d67-1d2c3e4f5a6b";
  session_post := server;
|}.

Definition answers (status : Z) (document : json) : nat -> request -> post_result :=
  fun _ _ => Responds {| status_code := status;
                         content := JsonContent document;
                         response_headers := [] |}.

Definition partial_success : json :=
  JObj [("processed", JNum 2); ("errors", JArr [JStr "bad value"])].

(** The server of the transport scenarios: HTTP 200 with two readings
    processed and one refused, the same document with HTTP 201, and
    HTTP 500. *)
Definition partial_world : World :=
  world_of [] (answers 200 partial_success).
Definition created_world : World :=
  world_of [] (answers 201 partial_success).
Definition failing_world : World :=
  world_of [] (answers 500 (JObj [("error", JObj [("message", JStr "down")])])).

(** HTTP 200 with a body that reports nothing. *)
Definition bare_world : World := world_of [] (answers 200 (JObj [])).

Definition reading_at (t : string) : reading :=
  {| ts := t; sensor_id := sensor; value := Finite 1 |}.

Definition three : list reading :=
  [reading_at "2024-01-01T00:00:00Z"; reading_at "2024-01-01T00:00:10Z";
   reading_at "2024-01-01T00:00:30Z"].

Definition five : list reading :=
  three ++ [reading_at "2024-01-01T00:01:00Z";
            reading_at "2024-01-01T00:02:00Z"].

Definition row (t : string) : list string := [t; sensor; "-18.5"].

(** One valid row. *)
Definition one_row : list (list string) :=
  [header; row "2024-01-01T00:00:00Z"].

Definition one_row_world : World :=
  world_of one_row (answers 200 partial_success).

(** A file with its header and no row. *)
Definition header_only_world : World :=
  world_of [header] (answers 200 partial_success).

(** Three valid rows, out of order. *)
Definition three_rows : list (list string) :=
  [header; row "2024-01-01T00:00:10Z"; row "2024-01-01T00:00:00Z";
   row "2024-01-01T00:00:30Z"].

Definition three_rows_world : World :=
  world_of three_rows (answers 200 partial_success).

(** The loader scenario of the specification. *)
Definition bad_timestamp_rows : list (list string) :=
  [header;
   ["2024-01-01T00:00:00Z"; sensor; "-18.5"];
   ["not-a-date"; sensor; "10.0"]].

(** A valid row followed by a record without its third field. *)
Definition short_rows : list (list string) :=
  [header; row "2024-01-01T00:00:00Z"; ["2024-01-01T00:00:10Z"; sensor]].

Definition bad_timestamp_world : World :=
  world_of bad_timestamp_rows (answers 200 partial_success).

Definition short_rows_world : World :=
  world_of short_rows (answers 200 partial_success).

(** Two rows whose timestamps carry different offsets. *)
Definition offset_rows : list (list string) :=
  [header; row "2024-01-01T01:00:00+05:00"; row "2024-01-01T00:00:00Z"].

Definition offset_world : World :=
  world_of offset_rows (answers 200 (JObj [("processed", JNum 1)])).

(** Two instants written with different offsets: the first is four
    hours before the second. *)
Definition early : reading := reading_at "2024-01-01T01:00:00+05:00".
Definition late : reading := reading_at "2024-01-01T00:00:00Z".

(** What the loader makes of [three_rows]. *)
Definition three_loaded : list reading :=
  map (fun t => {| ts := t; sensor_id := sensor; value := Finite (-185 # 10) |})
    ["2024-01-01T00:00:10Z"; "2024-01-01T00:00:00Z"; "2024-01-01T00:00:30Z"].


(** A server that refuses every request with HTTP 401 and a body whose
    [error] field is a string. *)
Definition refusing_world : World :=
  world_of three_rows (answers 401 (JObj [("error", JStr "Invalid signature")])).

(** Two rows, the first with a timestamp without offset. *)
Definition mixed_rows : list (list string) :=
  [header; row "2024-01-01T00:00:00"; row "2024-01-01T00:00:10Z"].

Definition mixed_world : World :=
  world_of mixed_rows (answers 200 partial_success).

(** A file whose rows all fail validation, each in its own way. *)
Definition rejected_rows : list (list string) :=
  [header;
   ["not-a-date"; sensor; "10.0"];
   [];
   ["2024-01-01T00:00:00Z"; "sensor_001"; "10.0"];
   ["2024-01-01T00:00:00Z"; sensor; "warm"]].

Definition rejected_world : World :=
  world_of rejected_rows (answers 200 partial_success).


Definition without_secret (name : string) : option string := None.


End Scenario.

(** * Properties *)

(** ** The signer *)

Lemma encode_utf8_app (a b : string) :
  encode_utf8 (a ++ b)%string = encode_utf8 a ++ encode_utf8 b.
Proof.
  induction a as [|c a IH]; simpl.
  - reflexivity.
  - rewrite IH. apply app_assoc.
Qed.

Lemma hex_digit_lower (n : Z) : is_lower_hex (hex_digit n) = true.
Proof.
  destruct n as [|p|p]; try reflexivity.
  do 4 (destruct p as [p|p|]; try reflexivity).
Qed.

Lemma hex_of_bytes_length (bs : bytes) :
  String.length (hex_of_bytes bs) = (2 * List.length bs)%nat.
Proof.
  induction bs as [|b bs IH]; simpl.
  - reflexivity.
  - rewrite IH. lia.
Qed.

Lemma hex_of_bytes_lower (bs : bytes) :
  string_forallb is_lower_hex (hex_of_bytes bs) = true.
Proof.
  induction bs as [|b bs IH]; simpl.
  - reflexivity.
  - now rewrite !hex_digit_lower, IH.
Qed.

Lemma be_bytes_length (n : nat) (x : Z) : List.length (SHA256.be_bytes n x) = n.
Proof.
  induction n as [|n IH]; simpl.
  - reflexivity.
  - now rewrite IH.
Qed.

Lemma compress_length (h : list Z) (block : bytes) :
  List.length (SHA256.compress h block) = 8%nat.
Proof. reflexivity. Qed.

Lemma fold_compress_length (blocks : list bytes) (h : list Z) :
  List.length h = 8%nat ->
  List.length (fold_left SHA256.compress blocks h) = 8%nat.
Proof.
  revert h. induction blocks as [|b blocks IH]; intros h Hh; simpl.
  - exact Hh.
  - apply IH, compress_length.
Qed.

Lemma flat_map_be_bytes_length (ws : list Z) :
  List.length (flat_map (SHA256.be_bytes 4) ws) = (4 * List.length ws)%nat.
Proof.
  induction ws as [|w ws IH].
  - reflexivity.
  - change (flat_map (SHA256.be_bytes 4) (w :: ws))
      with (SHA256.be_bytes 4 w ++ flat_map (SHA256.be_bytes 4) ws).
    rewrite length_app, be_bytes_length, IH. simpl. lia.
Qed.

Lemma digest_length (msg : bytes) : List.length (SHA256.digest msg) = 32%nat.
Proof.
  unfold SHA256.digest.
  rewrite flat_map_be_bytes_length, fold_compress_length; reflexivity.
Qed.

(** The signature the wire contract pins for the fixture of the
    specification. *)
Example signature_fixture :
  let quote := String (ascii_of_nat 34) EmptyString in
  generate_hmac_signature (init "http://localhost:3000" "s3cr3t" "d1")
    ("{" ++ quote ++ "readings" ++ quote ++ ":[]}")%string
    "2024-01-01T00:00:00Z"
  = "8300e796801cf346624a103c5695bf7819cd281e462f9e798e6b283fef819add".
Proof. vm_compute. reflexivity. Qed.

(** C1.  The signature is the lowercase hexadecimal rendering (64 digits)
    of HMAC-SHA256, keyed by the UTF-8 octets of the secret, of the octets
    of the body followed at once by those of the timestamp and of the
    device id; it is a function of body, timestamp, device id and secret
    alone, whatever the rest of the simulator object holds. *)
Theorem generate_hmac_signature_spec
    (url other_url secret device body timestamp : string) :
  let self := {| api_url := url; hmac_secret := secret; device_id := device |} in
  let other :=
    {| api_url := other_url; hmac_secret := secret; device_id := device |} in
  generate_hmac_signature self body timestamp
    = hex_of_bytes
        (HMAC.sha256 (encode_utf8 secret)
           (encode_utf8 body ++ encode_utf8 timestamp ++ encode_utf8 device))
  /\ String.length (generate_hmac_signature self body timestamp) = 64%nat
  /\ string_forallb is_lower_hex
       (generate_hmac_signature self body timestamp) = true
  /\ generate_hmac_signature self body timestamp
       = generate_hmac_signature other body timestamp.
Proof.
  intros self other. unfold generate_hmac_signature, HMAC.hexdigest.
  cbn [hmac_secret device_id self other].
  repeat split.
  - now rewrite !encode_utf8_app.
  - rewrite hex_of_bytes_length. unfold HMAC.sha256.
    now rewrite digest_length.
  - apply hex_of_bytes_lower.
Qed.

(** ** What a computation leaves alone *)

Section Frames.

Context {B : Type} (f : state -> B).

Lemma keeps_ret {A : Type} (a : A) : keeps f (ret a).
Proof. intro s. reflexivity. Qed.

Lemma keeps_raise {A : Type} (e : exn) : keeps f (@raise A e).
Proof. intro s. reflexivity. Qed.

Lemma keeps_lift {A : Type} (o : outcome A) : keeps f (lift o).
Proof. intro s. reflexivity. Qed.

Lemma keeps_get {A : Type} (g : state -> A) : keeps f (get g).
Proof. intro s. reflexivity. Qed.

Lemma keeps_modify (g : state -> state) :
  (forall s, f (g s) = f s) -> keeps f (modify g).
Proof. intros Hg s. apply Hg. Qed.

Lemma keeps_bind {A C : Type} (m : M A) (k : A -> M C) :
  keeps f m -> (forall a, keeps f (k a)) -> keeps f (bind m k).
Proof.
  intros Hm Hk s. unfold bind. specialize (Hm s).
  destruct (m s) as [[a|e] s1]; cbn in *.
  - now rewrite Hk.
  - exact Hm.
Qed.

Lemma keeps_try_except {A : Type} (m : M A) (handled : exn -> bool)
    (handler : exn -> M A) :
  keeps f m -> (forall e, keeps f (handler e)) ->
  keeps f (try_except m handled handler).
Proof.
  intros Hm Hh s. unfold try_except. specialize (Hm s).
  destruct (m s) as [[a|e] s1]; cbn in *.
  - exact Hm.
  - destruct (handled e); cbn; [now rewrite Hh | exact Hm].
Qed.

Lemma keeps_for_each {A : Type} (body : A -> M unit) (items : list A) :
  (forall x, keeps f (body x)) -> keeps f (for_each body items).
Proof.
  intros Hb. induction items as [|x items IH]; cbn.
  - apply keeps_ret.
  - apply keeps_bind; [apply Hb | intros _; exact IH].
Qed.

End Frames.

Ltac keeps_step :=
  first
    [ apply keeps_ret | apply keeps_raise | apply keeps_lift | apply keeps_get
    | apply keeps_modify; intros ?; reflexivity
    | apply keeps_for_each; intros ?
    | apply keeps_try_except; [|intros ?]
    | apply keeps_bind; [|intros ?] ].

Ltac keeps_auto :=
  repeat first
    [ keeps_step
    | match goal with
      | |- keeps _ (match ?x with _ => _ end) => destruct x
      | |- keeps _ (if ?b then _ else _) => destruct b
      end ].


(** ** Batch transport *)

(** C2.  [send_readings] serialises the batch exactly once; the string
    that call returned is the [data] of the one request it issues, and
    the [X-Signature] header of that request is the signature of that
    same string with the timestamp sent as [X-Timestamp]. *)
Theorem send_readings_signs_what_it_sends
    (world : World) (self : IngestionSimulator) (readings : list reading)
    (s : state) :
  let s' := snd (send_readings world self readings s) in
  let serialised := json_dumps world (dumps_calls s) readings in
  dumps_calls s' = S (dumps_calls s)
  /\ exists req timestamp,
       trace s' = trace s ++ [Post req]
       /\ data req = serialised
       /\ dict_get "X-Timestamp" (headers req) = Some timestamp
       /\ dict_get "X-Device-Id" (headers req) = Some (device_id self)
       /\ dict_get "X-Signature" (headers req)
          = Some (generate_hmac_signature self (data req) timestamp).
Proof.
  intros s' serialised. subst s' serialised. cbn.
  split; [reflexivity|].
  eexists. exists (utcnow_isoformat world (clock_calls s) ++ "Z")%string.
  split; [reflexivity|]. repeat split.
Qed.

(** ** Folding a batch outcome into the totals *)

Arguments record_result : simpl never.
Arguments show_rate_limit : simpl never.
Arguments normalise : simpl never.

Lemma bind_run {A B : Type} (m : M A) (k : A -> M B) (s : state) :
  bind m k s = match m s with
               | (Ok a, s') => k a s'
               | (Raised e, s') => (Raised e, s')
               end.
Proof. reflexivity. Qed.

Lemma frame_after {A C B : Type} (f : state -> B) (m : M A) (k : A -> M C)
    (s : state) :
  (forall a, keeps f (k a)) -> f (snd (bind m k s)) = f (snd (m s)).
Proof.
  intros Hk. unfold bind.
  destruct (m s) as [[a|e] s1]; cbn; [apply Hk | reflexivity].
Qed.

Ltac run_step :=
  rewrite bind_run;
  cbn [lift get modify print ret raise fst snd int_add json_len json_first3].

Ltac by_frame f :=
  match goal with
  | |- f (snd (?m ?s1)) = _ =>
      let K := fresh "K" in
      assert (K : keeps f m) by (unfold print; keeps_auto);
      rewrite K; clear K
  end.

Lemma show_rate_limit_keeps {B : Type} (f : state -> B) (r : result) :
  (forall e s, f (emit e s) = f s) -> keeps f (show_rate_limit r).
Proof.
  intros Hf. unfold show_rate_limit, print.
  repeat first [ apply keeps_ret | apply keeps_modify; intros ?; apply Hf
               | match goal with
                 | |- keeps _ (match ?x with _ => _ end) => destruct x
                 end ].
Qed.

Lemma record_result_accepted (batch : list reading) (r : result) (s : state)
    (fields : list (string * json)) (p : Z) :
  result_status_code r = 200 ->
  result_response r = JObj fields ->
  dict_get "processed" fields = Some (JNum p) ->
  let s' := snd (record_result batch r s) in
  total_sent s' = total_sent s + p
  /\ (forall es, dict_get "errors" fields = Some (JArr es) ->
        total_errors s' = total_errors s + Z.of_nat (List.length es))
  /\ (dict_get "errors" fields = None -> total_errors s' = total_errors s).
Proof.
  intros Hs Hr Hp s'. subst s'. unfold record_result.
  rewrite Hs, Hr. cbn [Z.eqb Pos.eqb json_get json_contains json_item].
  rewrite Hp. do 5 run_step. unfold dict_has. repeat split.
  - by_frame total_sent. reflexivity.
  - intros es He. rewrite He. do 5 run_step. by_frame total_errors. reflexivity.
  - intros He. rewrite He. run_step. reflexivity.
Qed.

Lemma record_result_failed (batch : list reading) (r : result) (s : state) :
  result_status_code r <> 200 ->
  let s' := snd (record_result batch r s) in
  total_sent s' = total_sent s
  /\ total_errors s' = total_errors s + Z.of_nat (List.length batch).
Proof.
  intros Hs s'. subst s'. unfold record_result.
  apply Z.eqb_neq in Hs. rewrite Hs. do 2 run_step. split.
  - by_frame total_sent. reflexivity.
  - by_frame total_errors. reflexivity.
Qed.

(** [deliver] prints, sends, and hands the normalised answer to
    [record_result]; what follows leaves the totals alone. *)
Lemma deliver_totals (world : World) (self : IngestionSimulator)
    (batch_size : Z) (readings : list reading) (i : Z) (batch : list reading)
    (s : state) (answer : post_result) :
  (forall req, session_post world (post_calls s) req = answer) ->
  exists s1,
    total_sent s1 = total_sent s /\ total_errors s1 = total_errors s
    /\ total_sent (snd (deliver world self batch_size readings i batch s))
       = total_sent (snd (record_result batch (normalise answer) s1))
    /\ total_errors (snd (deliver world self batch_size readings i batch s))
       = total_errors (snd (record_result batch (normalise answer) s1)).
Proof.
  intros Hanswer.
  eexists. split; [|split]; [| |split].
  3: { unfold deliver. do 2 run_step.
       unfold send_readings, dumps, utcnow, new_uuid4, post.
       do 5 run_step. rewrite Hanswer.
       apply frame_after. intros _. unfold print.
       apply keeps_bind; [apply show_rate_limit_keeps; reflexivity|intros _].
       keeps_auto. }
  3: { unfold deliver. do 2 run_step.
       unfold send_readings, dumps, utcnow, new_uuid4, post.
       do 5 run_step. rewrite Hanswer.
       apply frame_after. intros _. unfold print.
       apply keeps_bind; [apply show_rate_limit_keeps; reflexivity|intros _].
       keeps_auto. }
  all: reflexivity.
Qed.

(** C3, as the code has it.  An answer with status 200 adds the reported
    [processed] count to the success total and the length of the
    [errors] list, when there is one, to the error total; every answer
    with another status, 2xx or not, and every transport failure adds the
    size of the batch to the error total and nothing to the success
    total. *)
Theorem deliver_counts_outcome (world : World) (self : IngestionSimulator)
    (batch_size : Z) (readings : list reading) (i : Z) (batch : list reading)
    (s : state) (answer : post_result)
    (Hanswer : forall req, session_post world (post_calls s) req = answer) :
  let s' := snd (deliver world self batch_size readings i batch s) in
  (forall r fields p,
      answer = Responds r -> status_code r = 200 ->
      content r = JsonContent (JObj fields) ->
      dict_get "processed" fields = Some (JNum p) ->
      total_sent s' = total_sent s + p
      /\ (forall es, dict_get "errors" fields = Some (JArr es) ->
            total_errors s' = total_errors s + Z.of_nat (List.length es))
      /\ (dict_get "errors" fields = None -> total_errors s' = total_errors s))
  /\ (forall r,
        answer = Responds r -> status_code r <> 200 ->
        total_sent s' = total_sent s
        /\ total_errors s' = total_errors s + Z.of_nat (List.length batch))
  /\ (forall cause,
        answer = Fails cause ->
        total_sent s' = total_sent s
        /\ total_errors s' = total_errors s + Z.of_nat (List.length batch)).
Proof.
  intros s'. subst s'.
  destruct (deliver_totals world self batch_size readings i batch s answer Hanswer)
    as (s1 & Hsent & Herr & -> & ->).
  rewrite <- Hsent, <- Herr. split; [|split].
  - intros r fields p -> Hstatus Hcontent Hp.
    apply record_result_accepted with (fields := fields); trivial.
    + unfold normalise. now rewrite Hcontent.
    + unfold normalise. now rewrite Hcontent.
  - intros r -> Hstatus. apply record_result_failed.
    unfold normalise. destruct (content r); cbn; trivial; discriminate.
  - intros cause ->. apply record_result_failed. cbn. discriminate.
Qed.

(** The transport scenarios of the specification: HTTP 200 with
    [processed = 2] and one error for a batch of three, HTTP 500 for a
    batch of five. *)
Lemma deliver_counts_outcome_witness :
  (total_sent (snd (deliver Scenario.partial_world Scenario.me 100
                      Scenario.three 0 Scenario.three initial_state)) = 2
   /\ total_errors (snd (deliver Scenario.partial_world Scenario.me 100
                           Scenario.three 0 Scenario.three initial_state)) = 1)
  /\ (total_sent (snd (deliver Scenario.failing_world Scenario.me 100
                         Scenario.five 0 Scenario.five initial_state)) = 0
      /\ total_errors (snd (deliver Scenario.failing_world Scenario.me 100
                              Scenario.five 0 Scenario.five initial_state)) = 5).
Proof.
  split.
  - destruct (deliver_counts_outcome Scenario.partial_world Scenario.me 100
                Scenario.three 0 Scenario.three initial_state
                (Scenario.answers 200 Scenario.partial_success O
                   {| url := ""; data := ""; headers := []; timeout := 0 |})
                (fun _ => eq_refl)) as [H _].
    destruct (H _ _ 2 eq_refl eq_refl eq_refl eq_refl) as [Hsent [Herr _]].
    split; [exact Hsent | exact (Herr _ eq_refl)].
  - destruct (deliver_counts_outcome Scenario.failing_world Scenario.me 100
                Scenario.five 0 Scenario.five initial_state
                (Scenario.answers 500
                   (JObj [("error", JObj [("message", JStr "down")])]) O
                   {| url := ""; data := ""; headers := []; timeout := 0 |})
                (fun _ => eq_refl)) as [_ [H _]].
    apply (H _ eq_refl). discriminate.
Defined.

(** C3 as stated fails on another 2xx status: HTTP 201 with
    [processed = 2] and one error for a batch of three adds nothing to the
    success total and three to the error total. *)
Lemma created_is_counted_as_failed :
  total_sent (snd (deliver Scenario.created_world Scenario.me 100
                     Scenario.three 0 Scenario.three initial_state)) = 0
  /\ total_errors (snd (deliver Scenario.created_world Scenario.me 100
                          Scenario.three 0 Scenario.three initial_state)) = 3
  /\ ~ (total_sent (snd (deliver Scenario.created_world Scenario.me 100
                           Scenario.three 0 Scenario.three initial_state)) = 2
        /\ total_errors (snd (deliver Scenario.created_world Scenario.me 100
                                Scenario.three 0 Scenario.three initial_state))
           = 1).
Proof.
  vm_compute. repeat split; try reflexivity. intros [H _]. discriminate H.
Qed.

Lemma for_each_print_ok {A : Type} (g : A -> message) (items : list A)
    (s : state) :
  fst (for_each (fun x => print (g x)) items s) = Ok tt.
Proof.
  revert s. induction items as [|x items IH]; intros s; cbn [for_each].
  - reflexivity.
  - rewrite bind_run. cbn [print modify]. apply IH.
Qed.

Lemma show_rate_limit_ok (r : result) (s : state) :
  fst (show_rate_limit r s) = Ok tt.
Proof.
  unfold show_rate_limit.
  destruct (result_headers r) as [received|]; [|reflexivity].
  destruct (dict_get _ received); reflexivity.
Qed.

Lemma bind_ok {A C : Type} (m : M A) (k : A -> M C) (s : state) (c : C) :
  (exists a, fst (m s) = Ok a) ->
  (forall a s1, fst (k a s1) = Ok c) ->
  fst (bind m k s) = Ok c.
Proof.
  intros [a Ha] Hk. unfold bind. destruct (m s) as [[a'|e] s1]; cbn in *.
  - apply Hk.
  - discriminate.
Qed.

Lemma record_result_ok (batch : list reading) (r : result) (s : state)
    (fields : list (string * json)) :
  result_status_code r = 200 ->
  result_response r = JObj fields ->
  well_typed_body fields ->
  fst (record_result batch r s) = Ok tt.
Proof.
  intros Hs Hr [Hp He]. unfold record_result.
  rewrite Hs, Hr. cbn [Z.eqb Pos.eqb json_get json_contains json_item].
  assert (Hsum : exists v n, match dict_get "processed" fields with
                             | Some v => Ok v
                             | None => Ok (JNum 0)
                             end = Ok v /\ v = JNum n).
  { destruct Hp as [-> | [n ->]]; eauto. }
  destruct Hsum as (v & n & -> & ->).
  do 5 run_step. unfold dict_has.
  destruct He as [-> | [items ->]].
  - run_step. reflexivity.
  - do 7 run_step.
    apply bind_ok.
    + exists tt. apply for_each_print_ok.
    + intros _ s1. destruct (3 <? _); reflexivity.
Qed.

(** C10.  For an answer with status 200 whose body is a JSON object (an
    empty body counts as the empty object): without a [processed] field
    the success total is unchanged, without an [errors] field the error
    total is unchanged, and when the fields that are present have the
    types of the wire contract the loop body ends normally, so that the
    run goes on to the next batch. *)
Theorem deliver_tolerates_missing_fields (world : World)
    (self : IngestionSimulator) (batch_size : Z) (readings : list reading)
    (i : Z) (batch : list reading) (s : state) (r : response)
    (fields : list (string * json))
    (Hanswer : forall req, session_post world (post_calls s) req = Responds r)
    (Hstatus : status_code r = 200)
    (Hbody : content r = JsonContent (JObj fields)
             \/ (content r = NoContent /\ fields = [])) :
  let run := deliver world self batch_size readings i batch s in
  (dict_get "processed" fields = None -> total_sent (snd run) = total_sent s)
  /\ (dict_get "errors" fields = None ->
      total_errors (snd run) = total_errors s)
  /\ (batch <> [] -> well_typed_body fields -> fst run = Ok tt).
Proof.
  intros run. subst run.
  assert (Hr : result_response (normalise (Responds r)) = JObj fields
               /\ result_status_code (normalise (Responds r)) = 200).
  { unfold normalise. destruct Hbody as [-> | [-> ->]]; cbn; auto. }
  destruct Hr as [Hr Hs].
  destruct (deliver_totals world self batch_size readings i batch s _ Hanswer)
    as (s1 & Hsent & Herr & Hts & Hte).
  split; [|split].
  - intros Hp. rewrite Hts, <- Hsent. unfold record_result.
    rewrite Hs, Hr. cbn [Z.eqb Pos.eqb json_get]. rewrite Hp.
    do 4 run_step. by_frame total_sent. cbn. lia.
  - intros He. rewrite Hte, <- Herr. unfold record_result.
    rewrite Hs, Hr. cbn [Z.eqb Pos.eqb json_get json_contains].
    unfold dict_has. rewrite He.
    destruct (dict_get "processed" fields) as [v|]; run_step; run_step;
      try (destruct v; run_step; try reflexivity); repeat run_step;
      reflexivity.
  - intros Hbatch Htyped. unfold deliver. do 2 run_step.
    unfold send_readings, dumps, utcnow, new_uuid4, post.
    do 5 run_step. rewrite Hanswer.
    apply bind_ok.
    + exists tt. now apply record_result_ok with (fields := fields).
    + intros _ s2. apply bind_ok.
      * exists tt. apply show_rate_limit_ok.
      * intros _ s3. unfold last_item.
        destruct (rev batch) as [|x l] eqn:Hrev.
        -- apply (f_equal (@rev reading)) in Hrev. rewrite rev_involutive in Hrev.
           now destruct Hbatch.
        -- reflexivity.
Qed.

(** HTTP 200 with the body [{}] for a batch of three: both totals stay at
    zero and the loop body returns. *)
Lemma deliver_tolerates_missing_fields_witness :
  total_sent (snd (deliver Scenario.bare_world Scenario.me 100 Scenario.three
                     0 Scenario.three initial_state)) = 0
  /\ total_errors (snd (deliver Scenario.bare_world Scenario.me 100
                          Scenario.three 0 Scenario.three initial_state)) = 0
  /\ fst (deliver Scenario.bare_world Scenario.me 100 Scenario.three
            0 Scenario.three initial_state) = Ok tt.
Proof.
  destruct (deliver_tolerates_missing_fields Scenario.bare_world Scenario.me
              100 Scenario.three 0 Scenario.three initial_state
              {| status_code := 200; content := JsonContent (JObj []);
                 response_headers := [] |}
              [] (fun _ => eq_refl) eq_refl (or_introl eq_refl))
    as (Hsent & Herr & Hok).
  split; [exact (Hsent eq_refl)|].
  split; [exact (Herr eq_refl)|].
  apply Hok.
  - discriminate.
  - split; left; reflexivity.
Defined.

(** ** What a computation adds to the trace *)

Section Emits.

Variable P : event -> Prop.

Lemma emits_silent {A : Type} (m : M A) :
  (forall s, trace (snd (m s)) = trace s) -> emits P m.
Proof.
  intros H s. exists []. rewrite H, app_nil_r. split; [reflexivity|constructor].
Qed.

Lemma emits_ret {A : Type} (a : A) : emits P (ret a).
Proof. apply emits_silent. reflexivity. Qed.

Lemma emits_raise {A : Type} (e : exn) : emits P (@raise A e).
Proof. apply emits_silent. reflexivity. Qed.

Lemma emits_lift {A : Type} (o : outcome A) : emits P (lift o).
Proof. apply emits_silent. reflexivity. Qed.

Lemma emits_get {A : Type} (g : state -> A) : emits P (get g).
Proof. apply emits_silent. reflexivity. Qed.

Lemma emits_modify (g : state -> state) :
  (forall s, trace (g s) = trace s) -> emits P (modify g).
Proof. intros H. apply emits_silent. exact H. Qed.

Lemma emits_event (e : event) : P e -> emits P (modify (emit e)).
Proof.
  intros He s. exists [e]. split; [reflexivity|]. constructor; [exact He|constructor].
Qed.

Lemma emits_bind {A C : Type} (m : M A) (k : A -> M C) :
  emits P m -> (forall a, emits P (k a)) -> emits P (bind m k).
Proof.
  intros Hm Hk s. unfold bind. destruct (Hm s) as (a1 & H1 & F1).
  destruct (m s) as [[a|e] s1]; cbn in *.
  - destruct (Hk a s1) as (a2 & H2 & F2). exists (a1 ++ a2).
    rewrite H2, H1, app_assoc. split; [reflexivity|].
    apply Forall_app. now split.
  - exists a1. now split.
Qed.

Lemma emits_try_except {A : Type} (m : M A) (handled : exn -> bool)
    (handler : exn -> M A) :
  emits P m -> (forall e, emits P (handler e)) ->
  emits P (try_except m handled handler).
Proof.
  intros Hm Hh s. unfold try_except. destruct (Hm s) as (a1 & H1 & F1).
  destruct (m s) as [[a|e] s1]; cbn in *.
  - exists a1. now split.
  - destruct (handled e); cbn.
    + destruct (Hh e s1) as (a2 & H2 & F2). exists (a1 ++ a2).
      rewrite H2, H1, app_assoc. split; [reflexivity|].
      apply Forall_app. now split.
    + exists a1. now split.
Qed.

Lemma emits_for_each {A : Type} (body : A -> M unit) (items : list A) :
  (forall x, emits P (body x)) -> emits P (for_each body items).
Proof.
  intros Hb. induction items as [|x items IH]; cbn [for_each].
  - apply emits_ret.
  - apply emits_bind; [apply Hb | intros _; exact IH].
Qed.

End Emits.

Ltac emits_step :=
  first
    [ apply emits_ret | apply emits_raise | apply emits_lift | apply emits_get
    | apply emits_event; exact I
    | apply emits_modify; intros ?; reflexivity
    | apply emits_for_each; intros ?
    | apply emits_try_except; [|intros ?]
    | apply emits_bind; [|intros ?] ].

Ltac emits_auto :=
  repeat first
    [ emits_step
    | match goal with
      | |- emits _ (match ?x with _ => _ end) => destruct x
      | |- emits _ (if ?b then _ else _) => destruct b
      end ].

Lemma added_since_app (s s' : state) (added : list event) :
  trace s' = trace s ++ added -> added_since s s' = added.
Proof.
  intros H. unfold added_since. rewrite H.
  rewrite skipn_app, skipn_all, Nat.sub_diag. reflexivity.
Qed.

Lemma emits_added {A : Type} (P : event -> Prop) (m : M A) (s : state) :
  emits P m -> Forall P (added_since s (snd (m s))).
Proof.
  intros H. destruct (H s) as (added & Ht & HF).
  now rewrite (added_since_app _ _ _ Ht).
Qed.

Lemma read_rows_prints (lib : Library) (fieldnames : list string)
    (records : list (list string)) :
  forall row_num readings,
    emits is_print (read_rows lib fieldnames row_num records readings).
Proof.
  induction records as [|record rest IH]; intros row_num readings;
    cbn [read_rows].
  - apply emits_ret.
  - destruct record as [|field fields]; [apply IH|].
    apply emits_bind; [|intros ?; apply IH].
    unfold read_row, print. emits_auto.
Qed.

Lemma load_csv_data_prints (lib : Library) (world : World) (path : string) :
  emits is_print (load_csv_data lib world path).
Proof.
  unfold load_csv_data.
  apply emits_try_except; [|intros e; destruct e; apply emits_raise].
  destruct (open_csv world path) as [| |records]; try apply emits_raise.
  destruct (negb _); [apply emits_raise | apply read_rows_prints].
Qed.

Lemma filter_bound_silent (P : event -> Prop) (lib : Library)
    (bound : option string)
    (cond : datetime -> reading -> outcome bool) (readings : list reading) :
  emits P (filter_bound lib bound cond readings).
Proof. unfold filter_bound. emits_auto. Qed.

Lemma record_result_prints (batch : list reading) (r : result) :
  emits is_print (record_result batch r).
Proof. unfold record_result, print. emits_auto. Qed.

Lemma show_rate_limit_prints (r : result) : emits is_print (show_rate_limit r).
Proof. unfold show_rate_limit, print. emits_auto. Qed.

Lemma emits_weaken {A : Type} (P Q : event -> Prop) (m : M A) :
  (forall e, P e -> Q e) -> emits P m -> emits Q m.
Proof.
  intros HPQ Hm s. destruct (Hm s) as (added & Ht & HF).
  exists added. split; [exact Ht|]. eapply Forall_impl; eauto.
Qed.

Lemma dumps_silent (P : event -> Prop) (world : World) (readings : list reading) :
  emits P (dumps world readings).
Proof. apply emits_silent. reflexivity. Qed.

Lemma utcnow_silent (P : event -> Prop) (world : World) : emits P (utcnow world).
Proof. apply emits_silent. reflexivity. Qed.

Lemma new_uuid4_silent (P : event -> Prop) (world : World) :
  emits P (new_uuid4 world).
Proof. apply emits_silent. reflexivity. Qed.

Lemma post_emits (P : event -> Prop) (world : World) (r : request) :
  P (Post r) -> emits P (post world r).
Proof.
  intros HP s. exists [Post r]. split; [reflexivity|].
  constructor; [exact HP|constructor].
Qed.

Lemma send_readings_never_sleeps (world : World) (self : IngestionSimulator)
    (readings : list reading) :
  emits not_sleep (send_readings world self readings).
Proof.
  unfold send_readings.
  apply emits_bind; [apply dumps_silent|intros ?].
  apply emits_bind; [apply utcnow_silent|intros ?].
  apply emits_bind; [apply new_uuid4_silent|intros ?].
  apply emits_bind; [apply post_emits; exact I|intros ?].
  apply emits_ret.
Qed.

Lemma deliver_never_sleeps (world : World) (self : IngestionSimulator)
    (batch_size : Z) (readings : list reading) (i : Z) (batch : list reading) :
  emits not_sleep (deliver world self batch_size readings i batch).
Proof.
  unfold deliver, print.
  apply emits_bind; [emits_auto|intros _].
  apply emits_bind; [apply send_readings_never_sleeps|intros r].
  apply emits_bind;
    [apply emits_weaken with (P := is_print);
       [intros []; cbn; tauto | apply record_result_prints]|intros _].
  apply emits_bind;
    [apply emits_weaken with (P := is_print);
       [intros []; cbn; tauto | apply show_rate_limit_prints]|intros _].
  emits_auto.
Qed.

Lemma Qlt_bool_false_of_le (x : Q) : (x <= 0)%Q -> Qlt_bool 0 x = false.
Proof.
  intros H. unfold Qlt_bool. apply negb_false_iff. now apply Qle_bool_iff.
Qed.

Lemma pace_silent_when_not_positive (P : event -> Prop) (lib : Library)
    (speed : Q) (batch : list reading) :
  (speed <= 0)%Q -> emits P (pace lib speed batch).
Proof.
  intros Hspeed. unfold pace.
  apply emits_bind; [apply emits_get|intros last].
  rewrite (Qlt_bool_false_of_le _ Hspeed), andb_false_r. apply emits_ret.
Qed.

Lemma replay_never_sleeps_when_not_positive (lib : Library) (world : World)
    (self : IngestionSimulator) (speed : Q) (batch_size : Z)
    (filtered : list reading) :
  (speed <= 0)%Q ->
  emits not_sleep (replay lib world self speed batch_size filtered).
Proof.
  intros Hspeed. unfold replay, print.
  do 12 (apply emits_bind; [emits_auto|intros ?]).
  apply emits_bind.
  - apply emits_for_each. intros i. unfold process_batch.
    apply emits_bind; [now apply pace_silent_when_not_positive|intros _].
    apply deliver_never_sleeps.
  - intros _. emits_auto.
Qed.

(** With a step that is not positive, [range(0, n, step)] raises or is
    empty. *)
Lemma py_range_not_positive (n : nat) (step : Z) :
  step <= 0 ->
  py_range 0 (Z.of_nat n) step = Raised ValueError
  \/ (step < 0 /\ py_range 0 (Z.of_nat n) step = Ok []).
Proof.
  intros Hstep. unfold py_range.
  destruct (step =? 0) eqn:H0; [now left|right].
  apply Z.eqb_neq in H0. split; [lia|].
  destruct (0 <? step) eqn:Hpos; [apply Z.ltb_lt in Hpos; lia|].
  assert (Hcount : (0 - Z.of_nat n - step - 1) / - step <= 0).
  { apply Z.lt_succ_r. apply Z.div_lt_upper_bound; lia. }
  replace (Z.to_nat ((0 - Z.of_nat n - step - 1) / - step)) with O by lia.
  reflexivity.
Qed.

(** ** The batch size *)

Lemma insert_by_perm {A : Type} (key : A -> string) (x : A) (l : list A) :
  Permutation (insert_by key x l) (x :: l).
Proof.
  induction l as [|y l IH]; cbn.
  - reflexivity.
  - destruct (str_lt (key x) (key y)); [reflexivity|].
    rewrite IH. apply perm_swap.
Qed.

Lemma sort_by_perm {A : Type} (key : A -> string) (l : list A) :
  Permutation (sort_by key l) l.
Proof.
  unfold sort_by.
  assert (H : forall acc, Permutation (fold_left (fun acc x => insert_by key x acc) l acc)
                            (acc ++ l)).
  { induction l as [|x l IH]; intros acc; cbn.
    - now rewrite app_nil_r.
    - rewrite IH, insert_by_perm. apply Permutation_middle. }
  apply (H []).
Qed.

Lemma sort_by_not_nil {A : Type} (key : A -> string) (l : list A) :
  l <> [] -> sort_by key l <> [].
Proof.
  intros Hl Hs. apply Hl. apply Permutation_nil.
  rewrite <- Hs. apply sort_by_perm.
Qed.

Lemma last_item_ok {A : Type} (l : list A) :
  l <> [] -> exists x, last_item l = Ok x /\ In x l.
Proof.
  intros Hl. unfold last_item. destruct (rev l) as [|x l'] eqn:Hrev.
  - apply (f_equal (@rev A)) in Hrev. rewrite rev_involutive in Hrev.
    now destruct Hl.
  - exists x. split; [reflexivity|]. apply in_rev. rewrite Hrev. now left.
Qed.

Lemma replay_without_batches (lib : Library) (world : World)
    (self : IngestionSimulator) (speed : Q) (batch_size : Z)
    (filtered : list reading) (s : state) :
  filtered <> [] ->
  (batch_size = 0 ->
     fst (replay lib world self speed batch_size filtered s) = Raised ValueError)
  /\ (batch_size < 0 ->
        fst (replay lib world self speed batch_size filtered s) = Ok tt
        /\ total_sent (snd (replay lib world self speed batch_size filtered s)) = 0
        /\ total_errors (snd (replay lib world self speed batch_size filtered s)) = 0).
Proof.
  intros Hne. unfold replay.
  pose proof (sort_by_not_nil ts filtered Hne) as Hsorted.
  destruct (sort_by ts filtered) as [|r0 rest] eqn:Hs; [now destruct Hsorted|].
  destruct (last_item_ok (r0 :: rest) Hsorted) as (l & Hl & _).
  run_step. run_step. cbn [first_item]. rewrite Hl. do 9 run_step.
  split.
  - intros ->. reflexivity.
  - intros Hneg.
    destruct (py_range_not_positive (List.length (r0 :: rest)) batch_size)
      as [Hr | [_ Hr]]; [lia| |].
    + unfold py_range in Hr. destruct (batch_size =? 0) eqn:H0;
        [apply Z.eqb_eq in H0; lia | discriminate].
    + rewrite Hr. run_step. cbn [for_each]. repeat run_step.
      repeat split.
Qed.

Lemma emits_bind_lift {A C : Type} (P : event -> Prop) (o : outcome A)
    (k : A -> M C) :
  (forall a, o = Ok a -> emits P (k a)) -> emits P (bind (lift o) k).
Proof.
  intros Hk s. unfold bind, lift. destruct o as [a|e]; cbn.
  - apply Hk. reflexivity.
  - exists []. rewrite app_nil_r. split; [reflexivity|constructor].
Qed.

Lemma replay_never_posts_when_not_positive (lib : Library) (world : World)
    (self : IngestionSimulator) (speed : Q) (batch_size : Z)
    (filtered : list reading) :
  batch_size <= 0 ->
  emits not_post (replay lib world self speed batch_size filtered).
Proof.
  intros Hsize. unfold replay, print.
  do 11 (apply emits_bind; [emits_auto|intros ?]).
  apply emits_bind_lift. intros starts Hstarts.
  destruct (py_range_not_positive (List.length (sort_by ts filtered))
              batch_size Hsize) as [Hr | [_ Hr]];
    rewrite Hr in Hstarts; [discriminate|].
  injection Hstarts as <-. cbn [for_each]. emits_auto.
Qed.

(** C5, as the code has it.  The batch size is never validated.  With a
    batch size of zero or less no request is ever issued.  On a
    non-empty filtered set a batch size of zero makes the run abort with
    the [ValueError] of [range], after loading and before the first
    batch; a negative batch size makes the loop run zero times, and the
    run ends normally with both totals at zero. *)
Theorem batch_size_not_positive (lib : Library) (world : World)
    (self : IngestionSimulator) (csv_file : string) (speed : Q)
    (start_time end_time : option string) (batch_size : Z) (s : state) :
  batch_size <= 0 ->
  Forall not_post
    (added_since s
       (snd (simulate_ingestion lib world self csv_file speed start_time
               end_time batch_size s)))
  /\ forall filtered s0,
       filtered <> [] ->
       (batch_size = 0 ->
          fst (replay lib world self speed batch_size filtered s0)
          = Raised ValueError)
       /\ (batch_size < 0 ->
             fst (replay lib world self speed batch_size filtered s0) = Ok tt
             /\ total_sent
                  (snd (replay lib world self speed batch_size filtered s0)) = 0
             /\ total_errors
                  (snd (replay lib world self speed batch_size filtered s0)) = 0).
Proof.
  intros Hsize. split.
  - apply emits_added. unfold simulate_ingestion, print.
    apply emits_bind; [emits_auto|intros _].
    apply emits_bind.
    + apply emits_weaken with (P := is_print);
        [intros []; cbn; tauto | apply load_csv_data_prints].
    + intros loaded. destruct loaded as [|r0 rest]; [emits_auto|].
      apply emits_bind; [apply filter_bound_silent|intros from_start].
      apply emits_bind; [apply filter_bound_silent|intros in_range].
      now apply replay_never_posts_when_not_positive.
  - intros filtered s0 Hne. now apply replay_without_batches.
Qed.

(** A batch size of -1 on a file with one valid row: no event of the run
    is a request. *)
Lemma batch_size_not_positive_witness :
  Forall not_post
    (added_since initial_state
       (snd (simulate_ingestion cpython
               Scenario.one_row_world
               Scenario.me "data.csv" 1 None None (-1) initial_state))).
Proof.
  apply (batch_size_not_positive cpython
           Scenario.one_row_world
           Scenario.me "data.csv" 1 None None (-1) initial_state).
  lia.
Defined.

(** C5 as stated fails: with a batch size of -1 and one valid reading
    the run is not rejected.  It loads the reading, issues no request and
    ends normally, reporting zero readings sent and zero errors. *)
Lemma negative_batch_size_is_not_rejected :
  fst (simulate_ingestion cpython
         Scenario.one_row_world
         Scenario.me "data.csv" 1 None None (-1) initial_state) = Ok tt
  /\ steps (trace (snd (simulate_ingestion cpython
              Scenario.one_row_world
              Scenario.me "data.csv" 1 None None (-1) initial_state))) = []
  /\ In (Print (MsgLoaded 1))
        (trace (snd (simulate_ingestion cpython
              Scenario.one_row_world
              Scenario.me "data.csv" 1 None None (-1) initial_state)))
  /\ In (Print (MsgTotalSent 0))
        (trace (snd (simulate_ingestion cpython
              Scenario.one_row_world
              Scenario.me "data.csv" 1 None None (-1) initial_state))).
Proof.
  vm_compute. repeat split; auto 20.
Qed.


(** ** Pacing *)

Lemma steps_app (a b : list event) : steps (a ++ b) = steps a ++ steps b.
Proof. unfold steps. apply flat_map_app. Qed.

Lemma steps_of_prints (events : list event) :
  Forall is_print events -> steps events = [].
Proof.
  induction 1 as [|e events He _ IH]; [reflexivity|].
  destruct e; cbn in *; try contradiction. exact IH.
Qed.

Lemma pace_keeps {B : Type} (f : state -> B) (lib : Library) (speed : Q)
    (batch : list reading) :
  (forall e s, f (emit e s) = f s) -> keeps f (pace lib speed batch).
Proof.
  intros Hf. unfold pace, print, sleep.
  repeat first
    [ apply keeps_ret | apply keeps_lift | apply keeps_get
    | apply keeps_modify; intros ?; apply Hf
    | apply keeps_bind; [|intros ?]
    | match goal with
      | |- keeps _ (if ?b then _ else _) => destruct b
      end ].
Qed.

Lemma truthy_some (text : string) : text <> "" -> truthy (Some text) = true.
Proof. destruct text; [congruence | reflexivity]. Qed.

(** What [pace] adds to the trace when it returns: the wait of the
    specification. *)
Lemma pace_steps (lib : Library) (speed : Q) (batch : list reading)
    (previous : option reading) (s : state) :
  last_timestamp s = option_map ts previous ->
  (forall p, previous = Some p -> ts p <> "") ->
  exists added,
    trace (snd (pace lib speed batch s)) = trace s ++ added
    /\ (fst (pace lib speed batch s) = Ok tt ->
        steps added = wait_before lib speed previous batch).
Proof.
  intros Hlast Hprev. unfold pace. run_step. rewrite Hlast.
  destruct previous as [p|]; cbn [option_map].
  2: { exists []. cbn. rewrite app_nil_r. split; reflexivity. }
  rewrite (truthy_some _ (Hprev p eq_refl)). cbn [andb wait_before].
  destruct (Qlt_bool 0 speed).
  2: { exists []. cbn. rewrite app_nil_r. split; [reflexivity|].
       now destruct batch. }
  destruct batch as [|first rest]; cbn [first_item].
  { exists []. cbn. rewrite app_nil_r. split; [reflexivity|discriminate]. }
  run_step. unfold delay_between.
  destruct (parse_instant lib (ts first)) as [current_time|e]; run_step.
  2: { exists []. cbn. rewrite app_nil_r. split; [reflexivity|discriminate]. }
  destruct (parse_instant lib (ts p)) as [last_time|e]; run_step.
  2: { exists []. cbn. rewrite app_nil_r. split; [reflexivity|discriminate]. }
  destruct (datetime_diff current_time last_time) as [difference|e]; run_step.
  2: { exists []. cbn. rewrite app_nil_r. split; [reflexivity|discriminate]. }
  unfold max0.
  destruct (Qlt_bool 0 (total_seconds difference / speed)) eqn:Hdelay.
  - rewrite Hdelay. run_step. unfold sleep. cbn.
    eexists. split; [rewrite <- app_assoc; reflexivity|]. reflexivity.
  - change (Qlt_bool 0 0) with false. cbn iota.
    exists []. cbn. rewrite app_nil_r. split; reflexivity.
Qed.

Lemma pace_first (lib : Library) (speed : Q) (batch : list reading) (s : state) :
  last_timestamp s = None -> pace lib speed batch s = (Ok tt, s).
Proof. intros H. unfold pace. run_step. now rewrite H. Qed.

Lemma rest_of_deliver_prints (r : result) (batch : list reading) :
  emits is_print
    (record_result batch r ;;
     show_rate_limit r ;;
     last <- lift (last_item batch) ;;
     modify (set_last_timestamp (Some (ts last))) ;;
     print MsgBlank).
Proof.
  apply emits_bind; [apply record_result_prints|intros _].
  apply emits_bind; [apply show_rate_limit_prints|intros _].
  unfold print. emits_auto.
Qed.

Lemma rest_of_deliver_keeps_dumps (r : result) (batch : list reading) :
  keeps dumps_calls
    (record_result batch r ;;
     show_rate_limit r ;;
     last <- lift (last_item batch) ;;
     modify (set_last_timestamp (Some (ts last))) ;;
     print MsgBlank).
Proof.
  apply keeps_bind; [unfold record_result, print; keeps_auto|intros _].
  apply keeps_bind; [apply show_rate_limit_keeps; reflexivity|intros _].
  unfold print. keeps_auto.
Qed.

Lemma rest_of_deliver_last (r : result) (batch : list reading) (s : state) :
  fst ((record_result batch r ;;
        show_rate_limit r ;;
        last <- lift (last_item batch) ;;
        modify (set_last_timestamp (Some (ts last))) ;;
        print MsgBlank) s) = Ok tt ->
  last_timestamp
    (snd ((record_result batch r ;;
           show_rate_limit r ;;
           last <- lift (last_item batch) ;;
           modify (set_last_timestamp (Some (ts last))) ;;
           print MsgBlank) s))
  = option_map ts (last_reading batch)
  /\ batch <> [].
Proof.
  rewrite bind_run. destruct (record_result batch r s) as [[[]|e] s1];
    [|discriminate].
  rewrite bind_run. destruct (show_rate_limit r s1) as [[[]|e] s2];
    [|discriminate].
  rewrite bind_run. unfold last_item, last_reading, lift.
  destruct batch as [|x batch]; [discriminate|].
  destruct (rev (x :: batch)) as [|l rest]; [discriminate|].
  intros _. split; [reflexivity|discriminate].
Qed.

(** What [deliver] does: one request, carrying the next serialisation
    of the batch. *)
Lemma deliver_steps (world : World) (self : IngestionSimulator)
    (batch_size : Z) (readings : list reading) (i : Z) (batch : list reading)
    (s : state) :
  exists added,
    trace (snd (deliver world self batch_size readings i batch s))
    = trace s ++ added
    /\ steps added = [Send (json_dumps world (dumps_calls s) batch)]
    /\ dumps_calls (snd (deliver world self batch_size readings i batch s))
       = S (dumps_calls s)
    /\ (fst (deliver world self batch_size readings i batch s) = Ok tt ->
        last_timestamp (snd (deliver world self batch_size readings i batch s))
        = option_map ts (last_reading batch)
        /\ batch <> []).
Proof.
  unfold deliver. do 2 run_step.
  unfold send_readings, dumps, utcnow, new_uuid4, post. do 4 run_step.
  match goal with
  | |- context [ bind (record_result batch ?r) _ ?s2 ] =>
      destruct (rest_of_deliver_prints r batch s2) as (more & Htrace & Hprints);
      pose proof (rest_of_deliver_keeps_dumps r batch s2) as Hdumps;
      pose proof (rest_of_deliver_last r batch s2) as Hlast
  end.
  eexists. split; [|split; [|split]].
  - rewrite Htrace. cbn [trace emit count_post count_uuid count_clock count_dumps].
    rewrite <- !app_assoc. reflexivity.
  - rewrite !steps_app, (steps_of_prints _ Hprints). reflexivity.
  - rewrite Hdumps. reflexivity.
  - exact Hlast.
Qed.
Lemma in_firstn {A : Type} (n : nat) (l : list A) (x : A) :
  In x (firstn n l) -> In x l.
Proof.
  revert l. induction n as [|n IH]; intros [|y l]; cbn; try tauto.
  intros [->|H]; [now left | right; now apply IH].
Qed.

Lemma in_skipn {A : Type} (n : nat) (l : list A) (x : A) :
  In x (skipn n l) -> In x l.
Proof.
  revert l. induction n as [|n IH]; intros [|y l]; cbn; try tauto.
  intros H. right. now apply IH.
Qed.

Lemma slice_incl {A : Type} (l : list A) (lo hi : Z) (x : A) :
  In x (slice l lo hi) -> In x l.
Proof.
  unfold slice. intros H. apply in_firstn in H. now apply in_skipn in H.
Qed.

Lemma last_reading_in (batch : list reading) (p : reading) :
  last_reading batch = Some p -> In p batch.
Proof.
  unfold last_reading. destruct (rev batch) as [|x l] eqn:Hrev; [discriminate|].
  intros [= <-]. apply in_rev. rewrite Hrev. now left.
Qed.

Lemma process_batch_steps (lib : Library) (world : World)
    (self : IngestionSimulator) (speed : Q) (batch_size : Z)
    (readings : list reading) (i : Z) (previous : option reading) (s : state) :
  last_timestamp s = option_map ts previous ->
  (forall p, previous = Some p -> ts p <> "") ->
  let batch := slice readings i (i + batch_size) in
  let run := process_batch lib world self speed batch_size readings i s in
  fst run = Ok tt ->
  exists added,
    trace (snd run) = trace s ++ added
    /\ steps added
       = wait_before lib speed previous batch
         ++ [Send (json_dumps world (dumps_calls s) batch)]
    /\ dumps_calls (snd run) = S (dumps_calls s)
    /\ last_timestamp (snd run) = option_map ts (last_reading batch).
Proof.
  intros Hlast Hprev batch run. subst run. unfold process_batch. fold batch.
  rewrite bind_run.
  destruct (pace_steps lib speed batch previous s Hlast Hprev)
    as (waited & Hwaited & Hwait).
  pose proof (pace_keeps dumps_calls lib speed batch (fun _ _ => eq_refl) s)
    as Hdumps.
  destruct (pace lib speed batch s) as [[[]|e] s1]; cbn [fst snd] in *;
    [|discriminate].
  intros Hok.
  destruct (deliver_steps world self batch_size readings i batch s1)
    as (sent & Hsent & Hsteps & Hcount & Hnext).
  exists (waited ++ sent). split; [|split; [|split]].
  - rewrite Hsent, Hwaited. symmetry; apply app_assoc.
  - rewrite steps_app, Hsteps, Hwait, Hdumps; reflexivity.
  - now rewrite Hcount, Hdumps.
  - now apply Hnext.
Qed.

(** The invariant of the loop: the steps it adds are those of the
    schedule of the specification. *)
Lemma loop_steps (lib : Library) (world : World) (self : IngestionSimulator)
    (speed : Q) (batch_size : Z) (readings : list reading) :
  Forall (fun r => ts r <> "") readings ->
  forall starts previous s,
    last_timestamp s = option_map ts previous ->
    (forall p, previous = Some p -> ts p <> "") ->
    fst (for_each (process_batch lib world self speed batch_size readings)
           starts s) = Ok tt ->
    exists added,
      trace (snd (for_each
                    (process_batch lib world self speed batch_size readings)
                    starts s)) = trace s ++ added
      /\ steps added
         = schedule lib world speed (dumps_calls s) previous
             (map (fun i => slice readings i (i + batch_size)) starts).
Proof.
  intros Hts. induction starts as [|i starts IH]; intros previous s Hlast Hprev;
    cbn [for_each map schedule].
  - intros _. exists []. cbn. now rewrite app_nil_r.
  - rewrite bind_run.
    pose proof (process_batch_steps lib world self speed batch_size readings i
                  previous s Hlast Hprev) as Hstep.
    cbv zeta in Hstep.
    destruct (process_batch lib world self speed batch_size readings i s)
      as [[[]|e] s1]; cbn [fst snd] in *; [|discriminate].
    destruct (Hstep eq_refl) as (first & Hfirst & Hsteps & Hcount & Hnext).
    intros Hrest.
    destruct (IH (last_reading (slice readings i (i + batch_size))) s1 Hnext)
      as (rest & Hrest_trace & Hrest_steps); [|exact Hrest|].
    + intros p Hp. apply last_reading_in, slice_incl in Hp.
      rewrite Forall_forall in Hts. now apply Hts.
    + exists (first ++ rest). split.
      * rewrite Hrest_trace, Hfirst. symmetry; apply app_assoc.
      * rewrite steps_app, Hsteps, Hrest_steps, Hcount, <- app_assoc.
        reflexivity.
Qed.

Lemma process_batch_appends (lib : Library) (world : World)
    (self : IngestionSimulator) (speed : Q) (batch_size : Z)
    (readings : list reading) (i : Z) :
  emits (fun _ => True)
    (process_batch lib world self speed batch_size readings i).
Proof.
  unfold process_batch. apply emits_bind.
  - unfold pace, print, sleep. emits_auto.
  - intros _. apply emits_weaken with (P := not_sleep); [trivial|].
    apply deliver_never_sleeps.
Qed.

(** The first thing the loop does to the world, if anything, is to send
    a batch. *)
Lemma loop_sends_first (lib : Library) (world : World)
    (self : IngestionSimulator) (speed : Q) (batch_size : Z)
    (readings : list reading) (starts : list Z) (s : state) :
  last_timestamp s = None ->
  exists added,
    trace (snd (for_each
                  (process_batch lib world self speed batch_size readings)
                  starts s)) = trace s ++ added
    /\ (steps added = [] \/ exists body more, steps added = Send body :: more).
Proof.
  intros Hlast. destruct starts as [|i starts]; cbn [for_each].
  - exists []. cbn. rewrite app_nil_r. split; [reflexivity|now left].
  - rewrite bind_run. unfold process_batch at 1. rewrite bind_run.
    rewrite (pace_first _ _ _ _ Hlast).
    destruct (deliver_steps world self batch_size readings i
                (slice readings i (i + batch_size)) s)
      as (sent & Hsent & Hsteps & _).
    destruct (deliver world self batch_size readings i _ s) as [[[]|e] s1];
      cbn [fst snd] in *.
    + destruct (emits_for_each (fun _ => True)
                  (process_batch lib world self speed batch_size readings)
                  starts (process_batch_appends lib world self speed batch_size
                            readings) s1) as (rest & Hrest & _).
      exists (sent ++ rest). split.
      * rewrite Hrest, Hsent. symmetry; apply app_assoc.
      * right. rewrite steps_app, Hsteps. cbn. eauto.
    + exists sent. split; [exact Hsent|]. right. rewrite Hsteps. eauto.
Qed.
Lemma sort_by_forall {A : Type} (key : A -> string) (P : A -> Prop)
    (l : list A) :
  Forall P l -> Forall P (sort_by key l).
Proof.
  intros H. eapply Permutation_Forall; [|exact H].
  symmetry. apply sort_by_perm.
Qed.

Lemma replay_steps (lib : Library) (world : World) (self : IngestionSimulator)
    (speed : Q) (batch_size : Z) (filtered : list reading) (s : state) :
  exists added,
    trace (snd (replay lib world self speed batch_size filtered s))
    = trace s ++ added
    /\ (steps added = [] \/ exists body more, steps added = Send body :: more)
    /\ (fst (replay lib world self speed batch_size filtered s) = Ok tt ->
        Forall (fun r => ts r <> "") filtered ->
        steps added
        = schedule lib world speed (dumps_calls s) None
            (batches_of (sort_by ts filtered) batch_size)).
Proof.
  unfold replay, batches_of.
  set (readings := sort_by ts filtered).
  run_step. run_step.
  destruct (first_item readings) as [first|e].
  2: { eexists. split; [reflexivity|]. split; [now left|discriminate]. }
  run_step.
  destruct (last_item readings) as [last|e].
  2: { eexists. split; [reflexivity|]. split; [now left|discriminate]. }
  do 9 run_step.
  destruct (py_range 0 (Z.of_nat (List.length readings)) batch_size)
    as [starts|e].
  2: { eexists. split; [cbn; rewrite <- !app_assoc; reflexivity|].
       split; [now left|discriminate]. }
  rewrite bind_run.
  match goal with
  | |- context [ for_each ?body starts ?s0 ] =>
      destruct (loop_sends_first lib world self speed batch_size readings
                  starts s0 eq_refl) as (looped & Hlooped & Hfirst);
      pose proof (fun H => loop_steps lib world self speed batch_size readings
                             H starts None s0 eq_refl
                             ltac:(intros p Hp; discriminate Hp)) as Hloop;
      destruct (for_each body starts s0) as [[[]|e] s1]
  end; cbn [fst snd] in *.
  - match goal with
    | |- context [ bind ?m ?k s1 ] =>
        assert (Htail : emits is_print (bind m k))
          by (unfold print; emits_auto);
        destruct (Htail s1) as (tail & Htail_trace & Htail_prints)
    end.
    exists ([Print (MsgLoaded (List.length readings));
             Print (MsgTimeRange (ts first) (ts last));
             Print (MsgSpeed speed); Print (MsgBatchSize batch_size);
             Print (MsgDeviceId (device_id self)); Print MsgRule]
            ++ looped ++ tail).
    split; [|split].
    + rewrite Htail_trace, Hlooped. cbn. rewrite <- !app_assoc. reflexivity.
    + rewrite !steps_app, (steps_of_prints _ Htail_prints), app_nil_r.
      exact Hfirst.
    + intros _ Hts.
      destruct (Hloop (sort_by_forall ts _ _ Hts) eq_refl)
        as (looped' & Hlooped' & Hsteps).
      rewrite Hlooped in Hlooped'. apply app_inv_head in Hlooped'. subst looped'.
      rewrite !steps_app, (steps_of_prints _ Htail_prints), app_nil_r.
      exact Hsteps.
  - exists ([Print (MsgLoaded (List.length readings));
             Print (MsgTimeRange (ts first) (ts last));
             Print (MsgSpeed speed); Print (MsgBatchSize batch_size);
             Print (MsgDeviceId (device_id self)); Print MsgRule]
            ++ looped).
    split; [|split].
    + rewrite Hlooped. cbn. rewrite <- !app_assoc. reflexivity.
    + rewrite steps_app. exact Hfirst.
    + discriminate.
Qed.

Lemma prints_then {A C : Type} (m : M A) (k : A -> M C) (s : state) :
  emits is_print m ->
  (forall a s1, exists added,
      trace (snd (k a s1)) = trace s1 ++ added /\ begins_with_send (steps added)) ->
  exists added,
    trace (snd (bind m k s)) = trace s ++ added
    /\ begins_with_send (steps added).
Proof.
  intros Hm Hk. rewrite bind_run. destruct (Hm s) as (printed & Hprinted & Hprints).
  destruct (m s) as [[a|e] s1]; cbn [snd] in *.
  - destruct (Hk a s1) as (added & Hadded & Hfirst).
    exists (printed ++ added). split.
    + rewrite Hadded, Hprinted. symmetry. apply app_assoc.
    + now rewrite steps_app, (steps_of_prints _ Hprints).
  - exists printed. split; [exact Hprinted|].
    left. now apply steps_of_prints.
Qed.

Lemma simulate_ingestion_sends_first (lib : Library) (world : World)
    (self : IngestionSimulator) (csv_file : string) (speed : Q)
    (start_time end_time : option string) (batch_size : Z) (s : state) :
  exists added,
    trace (snd (simulate_ingestion lib world self csv_file speed start_time
                  end_time batch_size s)) = trace s ++ added
    /\ begins_with_send (steps added).
Proof.
  unfold simulate_ingestion.
  apply prints_then; [unfold print; emits_auto|intros _ s1].
  apply prints_then; [apply load_csv_data_prints|intros loaded s2].
  destruct loaded as [|r0 rest].
  - exists [Print MsgNoValidReadings]. split; [reflexivity|now left].
  - apply prints_then; [apply filter_bound_silent|intros from_start s3].
    apply prints_then; [apply filter_bound_silent|intros in_range s4].
    destruct (replay_steps lib world self speed batch_size in_range s4)
      as (added & Hadded & Hfirst & _).
    exists added. now split.
Qed.

Lemma simulate_ingestion_never_sleeps_when_not_positive (lib : Library)
    (world : World) (self : IngestionSimulator) (csv_file : string)
    (speed : Q) (start_time end_time : option string) (batch_size : Z) :
  (speed <= 0)%Q ->
  emits not_sleep
    (simulate_ingestion lib world self csv_file speed start_time end_time
       batch_size).
Proof.
  intros Hspeed. unfold simulate_ingestion, print.
  apply emits_bind; [emits_auto|intros _].
  apply emits_bind.
  - apply emits_weaken with (P := is_print);
      [intros []; cbn; tauto | apply load_csv_data_prints].
  - intros loaded. destruct loaded as [|r0 rest]; [emits_auto|].
    apply emits_bind; [apply filter_bound_silent|intros from_start].
    apply emits_bind; [apply filter_bound_silent|intros in_range].
    now apply replay_never_sleeps_when_not_positive.
Qed.

(** C4.  In every run the first batch is sent with no wait before it,
    and with a speed of zero or less the run never sleeps.  When the
    scheduler completes, its waits and requests are exactly the schedule
    of the specification: before each later batch a sleep of (timestamp
    of its first reading - timestamp of the last reading of the batch
    before) / speed, taken only when the speed and that delay are
    positive. *)
Theorem replay_follows_schedule (lib : Library) (world : World)
    (self : IngestionSimulator) (csv_file : string) (speed : Q)
    (start_time end_time : option string) (batch_size : Z) (s : state) :
  let run :=
    simulate_ingestion lib world self csv_file speed start_time end_time
      batch_size s in
  begins_with_send (steps (added_since s (snd run)))
  /\ ((speed <= 0)%Q -> Forall not_sleep (added_since s (snd run)))
  /\ forall filtered s0,
       fst (replay lib world self speed batch_size filtered s0) = Ok tt ->
       Forall (fun r => ts r <> "") filtered ->
       steps (added_since s0
                (snd (replay lib world self speed batch_size filtered s0)))
       = schedule lib world speed (dumps_calls s0) None
           (batches_of (sort_by ts filtered) batch_size).
Proof.
  intros run. subst run. split; [|split].
  - destruct (simulate_ingestion_sends_first lib world self csv_file speed
                start_time end_time batch_size s) as (added & Htrace & Hfirst).
    now rewrite (added_since_app _ _ _ Htrace).
  - intros Hspeed. apply emits_added.
    now apply simulate_ingestion_never_sleeps_when_not_positive.
  - intros filtered s0 Hok Hts.
    destruct (replay_steps lib world self speed batch_size filtered s0)
      as (added & Htrace & _ & Hschedule).
    rewrite (added_since_app _ _ _ Htrace). now apply Hschedule.
Qed.

(** Three readings at 0 s, 10 s and 30 s in batches of two at speed 2:
    the scheduler completes, and it sends the first two readings, sleeps
    (30 - 10) / 2 seconds and sends the third; at speed 0 the run of
    the whole file never sleeps. *)
Lemma replay_follows_schedule_witness :
  steps (added_since initial_state
           (snd (replay cpython Scenario.three_rows_world Scenario.me 2 2
                   Scenario.three initial_state)))
  = schedule cpython Scenario.three_rows_world 2 0 None
      (batches_of (sort_by ts Scenario.three) 2)
  /\ schedule cpython Scenario.three_rows_world 2 0 None
       (batches_of (sort_by ts Scenario.three) 2)
     = [Send "2024-01-01T00:00:00Z,2024-01-01T00:00:10Z";
        Wait (20000000 # 2000000);
        Send "2024-01-01T00:00:30Z"]
  /\ Forall not_sleep
       (added_since initial_state
          (snd (simulate_ingestion cpython Scenario.three_rows_world
                  Scenario.me "data.csv" 0 None None 2 initial_state))).
Proof.
  destruct (replay_follows_schedule cpython Scenario.three_rows_world
              Scenario.me "data.csv" 2 None None 2 initial_state)
    as (_ & _ & Hschedule).
  destruct (replay_follows_schedule cpython Scenario.three_rows_world
              Scenario.me "data.csv" 0 None None 2 initial_state)
    as (_ & Hquiet & _).
  split; [|split].
  - apply Hschedule.
    + vm_compute. reflexivity.
    + repeat constructor; discriminate.
  - vm_compute. reflexivity.
  - apply Hquiet. discriminate.
Defined.

(** ** Batching *)

Lemma firstn_plus {A : Type} (a b : nat) (l : list A) :
  firstn (a + b) l = firstn a l ++ firstn b (skipn a l).
Proof.
  revert l. induction a as [|a IH]; intros l; cbn.
  - reflexivity.
  - destruct l as [|x l]; cbn.
    + now rewrite firstn_nil.
    + now rewrite IH.
Qed.

(** A slice taken by the loop is a run of [batch_size] readings from its
    start, or what is left of the list. *)
Lemma slice_chunk {A : Type} (l : list A) (k : nat) (size : Z) :
  0 < size ->
  (k * Z.to_nat size <= List.length l)%nat ->
  slice l (0 + Z.of_nat k * size) (0 + Z.of_nat k * size + size)
  = firstn (Z.to_nat size) (skipn (k * Z.to_nat size) l).
Proof.
  intros Hsize Hk. unfold slice, clamp_index.
  set (n := Z.of_nat (List.length l)).
  assert (Hlo : 0 <= 0 + Z.of_nat k * size <= n) by (unfold n; nia).
  destruct (0 + Z.of_nat k * size <? 0) eqn:H1; [apply Z.ltb_lt in H1; lia|].
  destruct (0 + Z.of_nat k * size + size <? 0) eqn:H2;
    [apply Z.ltb_lt in H2; lia|].
  replace (Z.to_nat (Z.min (0 + Z.of_nat k * size) n))
    with (k * Z.to_nat size)%nat by nia.
  destruct (Z.le_gt_cases (0 + Z.of_nat k * size + size) n) as [Hfit | Hover].
  - f_equal. nia.
  - rewrite (firstn_all2 (n := Z.to_nat size)); [|rewrite length_skipn; unfold n in *; nia].
    apply firstn_all2. rewrite length_skipn. unfold n in *. nia.
Qed.

Lemma concat_chunks {A : Type} (l : list A) (size count : nat) :
  List.concat (map (fun k => firstn size (skipn (k * size) l)) (seq 0 count))
  = firstn (count * size) l.
Proof.
  induction count as [|count IH].
  - reflexivity.
  - rewrite seq_S, map_app, concat_app, IH. cbn [map List.concat plus].
    rewrite app_nil_r. replace (S count * size)%nat with (count * size + size)%nat by lia.
    now rewrite firstn_plus.
Qed.

Lemma batch_count_bounds (n : nat) (size : Z) :
  0 < size ->
  (n <= batch_count n size * Z.to_nat size)%nat
  /\ (forall k, (k < batch_count n size)%nat -> (k * Z.to_nat size < n)%nat).
Proof.
  intros Hsize. unfold batch_count.
  set (q := (Z.of_nat n - 0 + size - 1) / size).
  assert (Hq : 0 <= q) by (apply Z.div_pos; lia).
  assert (Hmul : size * q <= Z.of_nat n - 0 + size - 1 < size * q + size).
  { pose proof (Z.div_mod (Z.of_nat n - 0 + size - 1) size ltac:(lia)) as Hd.
    pose proof (Z.mod_pos_bound (Z.of_nat n - 0 + size - 1) size Hsize) as Hm.
    fold q in Hd. lia. }
  split; [nia|]. intros k Hk. nia.
Qed.

Lemma batches_of_chunks (readings : list reading) (size : Z) :
  0 < size ->
  batches_of readings size
  = map (fun k => firstn (Z.to_nat size) (skipn (k * Z.to_nat size) readings))
      (seq 0 (batch_count (List.length readings) size)).
Proof.
  intros Hsize. unfold batches_of, py_range.
  destruct (size =? 0) eqn:H0; [apply Z.eqb_eq in H0; lia|].
  destruct (0 <? size) eqn:Hpos; [|apply Z.ltb_ge in Hpos; lia].
  fold (batch_count (List.length readings) size).
  rewrite map_map. apply map_ext_in. intros k Hk. apply in_seq in Hk.
  apply slice_chunk; [exact Hsize|].
  destruct (batch_count_bounds (List.length readings) size Hsize) as [_ Hlt].
  specialize (Hlt k ltac:(lia)). lia.
Qed.
Lemma bodies_app (a b : list step) : bodies (a ++ b) = bodies a ++ bodies b.
Proof. unfold bodies. apply flat_map_app. Qed.

Lemma bodies_wait_before (lib : Library) (speed : Q)
    (previous : option reading) (batch : list reading) :
  bodies (wait_before lib speed previous batch) = [].
Proof.
  unfold wait_before. destruct previous as [p|]; [|reflexivity].
  destruct batch as [|first rest]; [reflexivity|].
  destruct (Qlt_bool 0 speed); [|reflexivity].
  destruct (delay_between lib speed p first) as [delay|]; [|reflexivity].
  destruct (Qlt_bool 0 delay); reflexivity.
Qed.

Lemma bodies_schedule (lib : Library) (world : World) (speed : Q)
    (batches : list (list reading)) :
  forall k previous,
    bodies (schedule lib world speed k previous batches)
    = serialised world k batches.
Proof.
  induction batches as [|batch rest IH]; intros k previous; cbn [schedule serialised].
  - reflexivity.
  - rewrite bodies_app, bodies_wait_before. cbn. now rewrite IH.
Qed.

(** C7, as the code has it.  For a positive batch size the batches of
    the loop, concatenated in order, are the sorted sequence; every batch
    is non-empty and has at most [batch_size] readings; a non-empty
    sequence shorter than the batch size makes exactly one batch, the
    whole sequence; and the requests of a completed run carry the
    serialisations of these batches, in order. *)
Theorem batches_partition (lib : Library) (world : World)
    (self : IngestionSimulator) (speed : Q) (batch_size : Z)
    (filtered : list reading) (s : state) :
  0 < batch_size ->
  let readings := sort_by ts filtered in
  Permutation readings filtered
  /\ List.concat (batches_of readings batch_size) = readings
  /\ Forall (fun batch => batch <> []
                          /\ Z.of_nat (List.length batch) <= batch_size)
       (batches_of readings batch_size)
  /\ (readings <> [] -> Z.of_nat (List.length readings) < batch_size ->
      batches_of readings batch_size = [readings])
  /\ (fst (replay lib world self speed batch_size filtered s) = Ok tt ->
      Forall (fun r => ts r <> "") filtered ->
      bodies (steps (added_since s
                       (snd (replay lib world self speed batch_size filtered s))))
      = serialised world (dumps_calls s) (batches_of readings batch_size)).
Proof.
  intros Hsize readings.
  destruct (batch_count_bounds (List.length readings) batch_size Hsize)
    as [Hcover Hstart].
  split; [apply sort_by_perm|].
  rewrite (batches_of_chunks readings batch_size Hsize).
  split; [|split; [|split]].
  - rewrite concat_chunks. now apply firstn_all2.
  - apply Forall_forall. intros batch Hin. apply in_map_iff in Hin.
    destruct Hin as (k & <- & Hk). apply in_seq in Hk.
    specialize (Hstart k ltac:(lia)).
    assert (Hlen : List.length (firstn (Z.to_nat batch_size)
                                  (skipn (k * Z.to_nat batch_size) readings))
                   = Nat.min (Z.to_nat batch_size)
                       (List.length readings - k * Z.to_nat batch_size)).
    { now rewrite length_firstn, length_skipn. }
    split.
    + intros Hnil. rewrite Hnil in Hlen. cbn in Hlen. lia.
    + rewrite Hlen. lia.
  - intros Hne Hshort.
    assert (Hone : batch_count (List.length readings) batch_size = 1%nat).
    { unfold batch_count.
      assert (Hpos : (0 < List.length readings)%nat)
        by (destruct readings; [congruence | cbn; lia]).
      replace ((Z.of_nat (List.length readings) - 0 + batch_size - 1) / batch_size)
        with 1; [reflexivity|].
      apply Z.div_unique with (r := Z.of_nat (List.length readings) - 1); lia. }
    rewrite Hone. cbn [seq map Nat.mul skipn].
    f_equal. apply firstn_all2. lia.
  - intros Hok Hts.
    destruct (replay_steps lib world self speed batch_size filtered s)
      as (added & Htrace & _ & Hschedule).
    rewrite (added_since_app _ _ _ Htrace), (Hschedule Hok Hts).
    rewrite bodies_schedule. fold readings.
    now rewrite (batches_of_chunks readings batch_size Hsize).
Qed.

(** Three readings in batches of two, and in one batch of a hundred. *)
Lemma batches_partition_witness :
  batches_of (sort_by ts Scenario.three) 2
  = [[Scenario.reading_at "2024-01-01T00:00:00Z";
      Scenario.reading_at "2024-01-01T00:00:10Z"];
     [Scenario.reading_at "2024-01-01T00:00:30Z"]]
  /\ List.concat (batches_of (sort_by ts Scenario.three) 2)
     = sort_by ts Scenario.three
  /\ batches_of (sort_by ts Scenario.three) 100 = [sort_by ts Scenario.three].
Proof.
  split; [vm_compute; reflexivity|]. split.
  - apply (batches_partition cpython Scenario.three_rows_world Scenario.me 1 2
             Scenario.three initial_state). lia.
  - apply (batches_partition cpython Scenario.three_rows_world Scenario.me 1 100
             Scenario.three initial_state).
    + lia.
    + vm_compute. discriminate.
    + vm_compute. reflexivity.
Defined.

(** C7 as stated fails on the empty sequence: a batch size of 100 exceeds
    its zero readings, and no batch is made; a run on a file without
    rows sends nothing. *)
Lemma empty_set_makes_no_batch :
  batches_of (sort_by ts []) 100 = []
  /\ List.length (batches_of (sort_by ts []) 100) <> 1%nat
  /\ steps (trace (snd (simulate_ingestion cpython Scenario.header_only_world
                          Scenario.me "data.csv" 1 None None 100
                          initial_state))) = [].
Proof.
  vm_compute. repeat split. discriminate.
Qed.

(** ** The empty working set *)

(** When loading yields no reading the run ends at once, normally,
    without a request and with the totals untouched. *)
Lemma no_valid_reading_ends_normally (lib : Library) (world : World)
    (self : IngestionSimulator) (csv_file : string) (speed : Q)
    (start_time end_time : option string) (batch_size : Z) (s : state) :
  fst (load_csv_data lib world csv_file (emit (Print (MsgLoading csv_file)) s))
  = Ok [] ->
  fst (simulate_ingestion lib world self csv_file speed start_time end_time
         batch_size s) = Ok tt
  /\ steps (added_since s
              (snd (simulate_ingestion lib world self csv_file speed
                      start_time end_time batch_size s))) = [].
Proof.
  intros Hload. unfold simulate_ingestion. run_step. rewrite bind_run.
  destruct (load_csv_data_prints lib world csv_file
              (emit (Print (MsgLoading csv_file)) s))
    as (warned & Hwarned & Hprints).
  destruct (load_csv_data lib world csv_file _) as [[loaded|e] s1];
    cbn [fst snd] in *; [|discriminate].
  injection Hload as ->. split; [reflexivity|].
  rewrite (added_since_app s _ ([Print (MsgLoading csv_file)] ++ warned
                               ++ [Print MsgNoValidReadings])).
  - rewrite !steps_app, (steps_of_prints _ Hprints). reflexivity.
  - cbn [print modify snd emit trace]. rewrite Hwarned. cbn.
    now rewrite <- !app_assoc.
Qed.

(** C6, where the code departs from it.  When the time filter leaves no
    reading, [simulate_ingestion] goes on to print the time range and
    raises [IndexError] on [readings[0]]: the run ends with an error, not
    normally, for every speed and batch size; here on a file with one
    valid row and a start bound after it.  No request is sent. *)
Theorem filtered_out_run_raises (lib : Library) (world : World)
    (self : IngestionSimulator) (speed : Q) (batch_size : Z) (s : state) :
  fst (replay lib world self speed batch_size [] s) = Raised IndexError
  /\ fst (simulate_ingestion cpython Scenario.one_row_world Scenario.me
            "data.csv" 1 (Some "2025-01-01T00:00:00Z") None 100 initial_state)
     = Raised IndexError
  /\ steps (trace (snd (simulate_ingestion cpython Scenario.one_row_world
                          Scenario.me "data.csv" 1
                          (Some "2025-01-01T00:00:00Z") None 100
                          initial_state))) = [].
Proof.
  split; [reflexivity|]. vm_compute. split; reflexivity.
Qed.

(** ** Sorting *)

(** C8, where the code departs from it.  The sort key is the timestamp
    text.  Of two readings four hours apart whose timestamps carry
    different offsets, the later instant is put first, and a run sends it
    first. *)
Theorem sort_orders_by_text :
  sort_by ts [Scenario.early; Scenario.late] = [Scenario.late; Scenario.early]
  /\ match parse_instant cpython (ts Scenario.early),
           parse_instant cpython (ts Scenario.late) with
     | Ok early, Ok late => datetime_diff early late
     | _, _ => Raised ValueError
     end = Ok (-14400000000)
  /\ steps (trace (snd (simulate_ingestion cpython Scenario.offset_world
                          Scenario.me "data.csv" 1 None None 1 initial_state)))
     = [Send "2024-01-01T00:00:00Z"; Send "2024-01-01T01:00:00+05:00"].
Proof.
  vm_compute. repeat split.
Qed.

(** ** Loading *)

(** The loader scenario of the specification: one reading, one warning
    naming row 3. *)
Example loader_scenario :
  load_csv_data cpython Scenario.bad_timestamp_world "data.csv" initial_state
  = (Ok [{| ts := "2024-01-01T00:00:00Z"; sensor_id := Scenario.sensor;
            value := Finite (-185 # 10) |}],
     emit (Print (MsgWarnTimestamp 3 "not-a-date")) initial_state).
Proof. vm_compute. reflexivity. Qed.

Lemma load_without_columns_aborts (lib : Library) (world : World)
    (path : string) (records : list (list string)) (s : state) :
  open_csv world path = Records records ->
  forallb (fun c => mem_str c (match records with [] => [] | h :: _ => h end))
    required_columns = false ->
  load_csv_data lib world path s = (Raised PyException, s).
Proof.
  intros Hopen Hmissing. unfold load_csv_data, try_except.
  rewrite Hopen, Hmissing. reflexivity.
Qed.

(** A row that has its three fields never aborts the load: it yields a
    reading and no warning, or no reading and one warning that names the
    row. *)
Lemma complete_row_is_kept_or_skipped (lib : Library) (row_num : Z)
    (row : list (string * option string)) (t sid v : string) (s : state) :
  dict_get "timestamp" row = Some (Some t) ->
  dict_get "sensor_id" row = Some (Some sid) ->
  dict_get "temperature_c" row = Some (Some v) ->
  let run :=
    try_except (read_row lib row_num row) is_row_error
      (fun e => print (MsgWarnSkip row_num e) ;; ret None) s in
  (exists r, run = (Ok (Some r), s))
  \/ (fst run = Ok None
      /\ (trace (snd run) = trace s ++ [Print (MsgWarnTimestamp row_num (strip t))]
          \/ trace (snd run) = trace s ++ [Print (MsgWarnSensor row_num (strip sid))]
          \/ trace (snd run) = trace s ++ [Print (MsgWarnSkip row_num ValueError)])).
Proof.
  intros Ht Hsid Hv run. subst run. unfold try_except, read_row.
  rewrite Ht, Hsid, Hv. do 2 run_step. rewrite bind_run.
  destruct (float_of_str lib v) as [x|]; cbn [ret raise fst snd is_row_error].
  2: { right. split; [reflexivity|]. right. right. reflexivity. }
  destruct (parse_instant lib (strip t)) as [d|e].
  2: { right. split; [reflexivity|]. left. reflexivity. }
  destruct (uuid_of_str lib (strip sid)) as [u|].
  - left. eexists. reflexivity.
  - right. split; [reflexivity|]. right. left. reflexivity.
Qed.

(** Every reading that [load_csv_data] returns has a timestamp the
    library parses; with a library that refuses the empty text the
    timestamp is not empty, and the time filters keep it so. *)
Lemma read_row_timestamp (lib : Library) (row_num : Z)
    (row : list (string * option string)) (r : reading) (s s' : state) :
  try_except (read_row lib row_num row) is_row_error
    (fun e => print (MsgWarnSkip row_num e) ;; ret None) s = (Ok (Some r), s') ->
  exists d, parse_instant lib (ts r) = Ok d.
Proof.
  unfold try_except, read_row.
  destruct (dict_get "timestamp" row) as [[t|]|]; try discriminate.
  destruct (dict_get "sensor_id" row) as [[sid|]|]; try discriminate.
  destruct (dict_get "temperature_c" row) as [[v|]|]; try discriminate.
  do 2 run_step. rewrite bind_run.
  destruct (float_of_str lib v) as [x|]; cbn [ret raise fst snd is_row_error];
    try discriminate.
  destruct (parse_instant lib (strip t)) as [d|e] eqn:Hparse; try discriminate.
  destruct (uuid_of_str lib (strip sid)) as [u|]; try discriminate.
  intros [= <- _]. exists d. exact Hparse.
Qed.

Lemma read_rows_timestamps (lib : Library) (fieldnames : list string)
    (records : list (list string)) :
  forall row_num readings s loaded s',
    Forall (fun r => exists d, parse_instant lib (ts r) = Ok d) readings ->
    read_rows lib fieldnames row_num records readings s = (Ok loaded, s') ->
    Forall (fun r => exists d, parse_instant lib (ts r) = Ok d) loaded.
Proof.
  induction records as [|record rest IH]; intros row_num readings s loaded s' Hacc;
    cbn [read_rows].
  - intros [= <- _]. exact Hacc.
  - destruct record as [|field fields]; [now apply IH|].
    rewrite bind_run.
    destruct (try_except _ _ _ s) as [[parsed|e] s1] eqn:Hrow; [|discriminate].
    apply IH. destruct parsed as [r|]; [|exact Hacc].
    apply Forall_app. split; [exact Hacc|].
    constructor; [|constructor]. eapply read_row_timestamp. exact Hrow.
Qed.

Lemma loaded_timestamps (lib : Library) (world : World) (path : string)
    (s s' : state) (loaded : list reading) :
  fromisoformat lib "" = None ->
  load_csv_data lib world path s = (Ok loaded, s') ->
  Forall (fun r => ts r <> "") loaded.
Proof.
  intros Hempty. unfold load_csv_data, try_except.
  destruct (open_csv world path) as [| |records]; try discriminate.
  destruct (negb _); [discriminate|].
  destruct (read_rows lib _ 2 (tl records) [] s) as [[rs|e] s1] eqn:Hrows;
    [|destruct e; discriminate].
  intros [= <- _].
  eapply Forall_impl; [|eapply read_rows_timestamps; [constructor|exact Hrows]].
  intros r [d Hd] Hts. unfold parse_instant in Hd. rewrite Hts in Hd.
  cbn in Hd. now rewrite Hempty in Hd.
Qed.

Lemma keep_if_forall {A : Type} (P : A -> Prop) (cond : A -> outcome bool)
    (items kept : list A) :
  Forall P items -> keep_if cond items = Ok kept -> Forall P kept.
Proof.
  revert kept. induction items as [|x items IH]; intros kept Hall; cbn.
  - intros [= <-]. constructor.
  - destruct (cond x) as [b|e]; [|discriminate].
    destruct (keep_if cond items) as [rest|e]; [|discriminate].
    intros [= <-]. inversion Hall; subst.
    destruct b; [constructor|]; auto.
Qed.

Example cpython_refuses_empty_text : fromisoformat cpython "" = None.
Proof. reflexivity. Qed.

(** C9, where the code departs from it.  A record that lacks its last
    field reaches [float(None)], whose [TypeError] the handler of the row
    does not catch: the whole load is aborted, the valid row before it
    is lost with it, and no warning is printed. *)
Theorem short_row_aborts_load :
  load_csv_data cpython Scenario.short_rows_world "data.csv" initial_state
  = (Raised PyException, initial_state)
  /\ fst (read_row cpython 3
            (dict_row Scenario.header ["2024-01-01T00:00:10Z"; Scenario.sensor])
            initial_state) = Raised TypeError
  /\ is_row_error TypeError = false.
Proof.
  vm_compute. repeat split.
Qed.

(** ** The signed message and the base URL *)

Lemma string_app_assoc (a b c : string) :
  ((a ++ b) ++ c)%string = (a ++ b ++ c)%string.
Proof.
  induction a as [|x a IH]; cbn; [reflexivity | now rewrite IH].
Qed.

Lemma string_app_nil (a : string) : (a ++ "")%string = a.
Proof.
  induction a as [|x a IH]; cbn; [reflexivity | now rewrite IH].
Qed.

(** X1.  The signed message is the plain concatenation of body,
    timestamp and device id: text moved from the end of the body to the
    start of the timestamp, or from the end of the timestamp to the
    start of the device id, leaves the signature unchanged. *)
Theorem signature_ignores_field_boundaries
    (url secret device body timestamp moved : string) :
  generate_hmac_signature
    {| api_url := url; hmac_secret := secret; device_id := device |}
    (body ++ moved) timestamp
  = generate_hmac_signature
      {| api_url := url; hmac_secret := secret; device_id := device |}
      body (moved ++ timestamp)
  /\ generate_hmac_signature
       {| api_url := url; hmac_secret := secret; device_id := device |}
       body (timestamp ++ moved)
     = generate_hmac_signature
         {| api_url := url; hmac_secret := secret;
            device_id := (moved ++ device)%string |}
         body timestamp.
Proof.
  unfold generate_hmac_signature. cbn [hmac_secret device_id].
  now rewrite !string_app_assoc.
Qed.

Lemma rstrip_slashes (s : string) :
  exists n, s = (rstrip_chars "/" s ++ slashes n)%string.
Proof.
  unfold rstrip_chars. induction s as [|c rest [n IH]]; cbn [rstrip_by].
  - exists O. reflexivity.
  - destruct (rstrip_by _ rest) as [|k kept] eqn:Hkept.
    + cbn [mem_char orb]. destruct (Ascii.eqb c "/") eqn:Hc.
      * apply Ascii.eqb_eq in Hc. subst c. exists (S n). cbn in *. now f_equal.
      * exists n. cbn in *. now f_equal.
    + exists n. cbn in *. now f_equal.
Qed.

Lemma rstrip_no_slash (s prefix : string) :
  rstrip_chars "/" s <> (prefix ++ "/")%string.
Proof.
  unfold rstrip_chars. revert prefix.
  induction s as [|c rest IH]; intros prefix; cbn [rstrip_by].
  - destruct prefix; discriminate.
  - destruct (rstrip_by _ rest) as [|k kept] eqn:Hkept.
    + cbn [mem_char orb]. destruct (Ascii.eqb c "/") eqn:Hc.
      * destruct prefix; discriminate.
      * destruct prefix as [|p prefix]; cbn.
        -- intros [= ->]. discriminate Hc.
        -- intros [= _ H]. destruct prefix; discriminate.
    + destruct prefix as [|p prefix]; cbn.
      * discriminate.
      * intros [= _ H]. exact (IH prefix H).
Qed.

(** X2.  [__init__] removes every trailing slash of the base URL and
    nothing else: the URL given is the one kept followed by slashes only,
    the one kept does not end with a slash, and the secret and the device
    id are kept as given. *)
Theorem init_strips_trailing_slashes (url secret device : string) :
  (exists n, url = (api_url (init url secret device) ++ slashes n)%string)
  /\ (forall prefix, api_url (init url secret device) <> (prefix ++ "/")%string)
  /\ api_url (init (api_url (init url secret device)) secret device)
     = api_url (init url secret device)
  /\ hmac_secret (init url secret device) = secret
  /\ device_id (init url secret device) = device.
Proof.
  cbn [init api_url hmac_secret device_id].
  split; [apply rstrip_slashes|]. split; [apply rstrip_no_slash|].
  split; [|split; reflexivity].
  destruct (rstrip_slashes (rstrip_chars "/" url)) as [n Hn].
  destruct n as [|n].
  - cbn [slashes] in Hn. rewrite string_app_nil in Hn. now symmetry.
  - exfalso. apply (rstrip_no_slash url
      (rstrip_chars "/" (rstrip_chars "/" url) ++ slashes n)).
    rewrite Hn at 1. rewrite string_app_assoc. f_equal.
    clear. induction n as [|n IH]; cbn; [reflexivity | now rewrite <- IH].
Qed.

(** ** What every run does, whatever its inputs *)

Lemma Qlt_bool_true (x y : Q) : Qlt_bool x y = true -> (x < y)%Q.
Proof.
  unfold Qlt_bool. intros H. apply negb_true_iff in H.
  apply Qnot_le_lt. intros Hle. apply Qle_bool_iff in Hle. congruence.
Qed.

Section RunEvents.

Variable self : IngestionSimulator.
Variable ok : event -> Prop.
Hypothesis ok_print : forall m, ok (Print m).
Hypothesis ok_sleep : forall seconds, (0 < seconds)%Q -> ok (Sleep seconds).
Hypothesis ok_post : forall r, well_formed_request self r -> ok (Post r).

Lemma prints_are_ok {A : Type} (m : M A) : emits is_print m -> emits ok m.
Proof.
  apply emits_weaken. intros [m0| |]; cbn; try contradiction.
  intros _. apply ok_print.
Qed.

Lemma print_is_ok (m : message) : emits ok (print m).
Proof. apply emits_event, ok_print. Qed.

Lemma send_readings_events (world : World) (readings : list reading) :
  emits ok (send_readings world self readings).
Proof.
  unfold send_readings.
  apply emits_bind; [apply dumps_silent|intros body].
  apply emits_bind; [apply utcnow_silent|intros now].
  apply emits_bind; [apply new_uuid4_silent|intros key].
  apply emits_bind; [|intros ?; apply emits_ret].
  apply post_emits, ok_post. unfold well_formed_request.
  cbn [url timeout headers data map fst].
  repeat split. exists now. split; reflexivity.
Qed.

Lemma pace_events (lib : Library) (speed : Q) (batch : list reading) :
  emits ok (pace lib speed batch).
Proof.
  unfold pace. apply emits_bind; [apply emits_get|intros last].
  destruct (truthy last && Qlt_bool 0 speed); [|apply emits_ret].
  apply emits_bind_lift. intros first _.
  apply emits_bind_lift. intros current_time _.
  apply emits_bind_lift. intros last_time _.
  apply emits_bind_lift. intros difference _.
  destruct (Qlt_bool 0 (max0 (total_seconds difference / speed))) eqn:Hdelay;
    [|apply emits_ret].
  apply emits_bind; [apply print_is_ok|intros _].
  apply emits_event, ok_sleep. now apply Qlt_bool_true.
Qed.

Lemma deliver_events (world : World) (batch_size : Z)
    (readings : list reading) (i : Z) (batch : list reading) :
  emits ok (deliver world self batch_size readings i batch).
Proof.
  unfold deliver.
  apply emits_bind; [apply print_is_ok|intros _].
  apply emits_bind; [apply send_readings_events|intros r].
  apply prints_are_ok, rest_of_deliver_prints.
Qed.

Lemma replay_events (lib : Library) (world : World) (speed : Q)
    (batch_size : Z) (filtered : list reading) :
  emits ok (replay lib world self speed batch_size filtered).
Proof.
  unfold replay.
  apply emits_bind; [apply print_is_ok|intros _].
  apply emits_bind_lift. intros first _.
  apply emits_bind_lift. intros last _.
  do 5 (apply emits_bind; [apply print_is_ok|intros _]).
  do 3 (apply emits_bind; [apply emits_modify; reflexivity|intros _]).
  apply emits_bind_lift. intros starts _.
  apply emits_bind.
  - apply emits_for_each. intros i. unfold process_batch.
    apply emits_bind; [apply pace_events|intros _]. apply deliver_events.
  - intros _. apply prints_are_ok. unfold print. emits_auto.
Qed.

Lemma simulate_ingestion_events (lib : Library) (world : World)
    (csv_file : string) (speed : Q) (start_time end_time : option string)
    (batch_size : Z) :
  emits ok
    (simulate_ingestion lib world self csv_file speed start_time end_time
       batch_size).
Proof.
  unfold simulate_ingestion.
  apply emits_bind; [apply print_is_ok|intros _].
  apply emits_bind; [apply prints_are_ok, load_csv_data_prints|intros loaded].
  destruct loaded as [|r0 rest]; [apply print_is_ok|].
  apply emits_bind; [apply filter_bound_silent|intros from_start].
  apply emits_bind; [apply filter_bound_silent|intros in_range].
  apply replay_events.
Qed.

End RunEvents.

(** X3.  Every request of every run, whatever the file, the bounds, the
    speed, the batch size and the answers of the server, goes to the
    endpoint under the base URL with a timeout of 30 seconds, carries
    the five headers, the device id of the simulator among them, and is
    signed: its [X-Signature] is the signature of the body it sends with
    the timestamp it sends. *)
Theorem every_request_is_signed (lib : Library) (world : World)
    (self : IngestionSimulator) (csv_file : string) (speed : Q)
    (start_time end_time : option string) (batch_size : Z) (s : state) :
  Forall (signed_request self)
    (added_since s
       (snd (simulate_ingestion lib world self csv_file speed start_time
               end_time batch_size s))).
Proof.
  apply emits_added, simulate_ingestion_events; cbn; trivial.
Qed.

(** X4.  A run never sleeps for a time that is zero or negative,
    whatever the order of the timestamps and the sign of the speed:
    every sleep of every run lasts a positive time. *)
Theorem every_sleep_is_positive (lib : Library) (world : World)
    (self : IngestionSimulator) (csv_file : string) (speed : Q)
    (start_time end_time : option string) (batch_size : Z) (s : state) :
  Forall positive_sleep
    (added_since s
       (snd (simulate_ingestion lib world self csv_file speed start_time
               end_time batch_size s))).
Proof.
  apply emits_added, (simulate_ingestion_events self); cbn; trivial.
Qed.

(** ** Idempotency keys *)

Lemma idempotency_keys_app (a b : list event) :
  idempotency_keys (a ++ b) = idempotency_keys a ++ idempotency_keys b.
Proof. unfold idempotency_keys. apply flat_map_app. Qed.

Lemma idempotency_keys_quiet (events : list event) :
  Forall not_post events -> idempotency_keys events = [].
Proof.
  induction 1 as [|e events He _ IH]; [reflexivity|].
  destruct e; cbn in *; try contradiction; exact IH.
Qed.

Lemma draws_keys_quiet (world : World) {A : Type} (m : M A) :
  emits not_post m -> keeps uuid_calls m -> draws_keys world m.
Proof.
  intros He Hk s. destruct (He s) as (added & Ht & Hq).
  exists added, O. rewrite Nat.add_0_r. split; [exact Ht|].
  split; [apply Hk|]. now apply idempotency_keys_quiet.
Qed.

Lemma draws_keys_bind (world : World) {A C : Type} (m : M A) (k : A -> M C) :
  draws_keys world m -> (forall a, draws_keys world (k a)) ->
  draws_keys world (bind m k).
Proof.
  intros Hm Hk s. unfold bind. destruct (Hm s) as (a1 & n1 & H1 & U1 & K1).
  destruct (m s) as [[a|e] s1]; cbn [snd] in *.
  - destruct (Hk a s1) as (a2 & n2 & H2 & U2 & K2).
    exists (a1 ++ a2), (n1 + n2)%nat. split; [|split].
    + rewrite H2, H1. symmetry. apply app_assoc.
    + rewrite U2, U1. lia.
    + rewrite idempotency_keys_app, K1, K2, U1, seq_app, map_app. reflexivity.
  - exists a1, n1. auto.
Qed.

Lemma draws_keys_lift (world : World) {A C : Type} (o : outcome A)
    (k : A -> M C) :
  (forall a, draws_keys world (k a)) -> draws_keys world (bind (lift o) k).
Proof.
  intros Hk. apply draws_keys_bind; [|exact Hk].
  apply draws_keys_quiet; [apply emits_lift | apply keeps_lift].
Qed.

Lemma draws_keys_print (world : World) (m : message) :
  draws_keys world (print m).
Proof.
  apply draws_keys_quiet; unfold print;
    [apply emits_event; exact I | apply keeps_modify; reflexivity].
Qed.

Lemma draws_keys_for_each (world : World) {A : Type} (body : A -> M unit)
    (items : list A) :
  (forall x, draws_keys world (body x)) ->
  draws_keys world (for_each body items).
Proof.
  intros Hb. induction items as [|x items IH]; cbn [for_each].
  - apply draws_keys_quiet; [apply emits_ret | apply keeps_ret].
  - apply draws_keys_bind; [apply Hb | intros _; exact IH].
Qed.

(** One call of [send_readings] draws one UUID and sends it as the key
    of its one request. *)
Lemma send_readings_draws_key (world : World) (self : IngestionSimulator)
    (readings : list reading) :
  draws_keys world (send_readings world self readings).
Proof.
  intros s. eexists. exists 1%nat. cbn. split; [reflexivity|].
  split; [lia | reflexivity].
Qed.

Lemma prints_never_post {A : Type} (m : M A) :
  emits is_print m -> emits not_post m.
Proof. apply emits_weaken. intros []; cbn; tauto. Qed.

Lemma read_rows_keeps {B : Type} (f : state -> B) (lib : Library)
    (fieldnames : list string) (records : list (list string)) :
  (forall e s, f (emit e s) = f s) ->
  forall row_num readings,
    keeps f (read_rows lib fieldnames row_num records readings).
Proof.
  intros Hf. induction records as [|record rest IH]; intros row_num readings;
    cbn [read_rows].
  - apply keeps_ret.
  - destruct record as [|field fields]; [apply IH|].
    apply keeps_bind; [|intros ?; apply IH].
    unfold read_row, print.
    repeat first
      [ apply keeps_ret | apply keeps_raise
      | apply keeps_modify; intros ?; apply Hf
      | apply keeps_try_except; [|intros ?]
      | apply keeps_bind; [|intros ?]
      | match goal with
        | |- keeps _ (match ?x with _ => _ end) => destruct x
        end ].
Qed.

Lemma load_csv_data_keeps {B : Type} (f : state -> B) (lib : Library)
    (world : World) (path : string) :
  (forall e s, f (emit e s) = f s) -> keeps f (load_csv_data lib world path).
Proof.
  intros Hf. unfold load_csv_data.
  apply keeps_try_except; [|intros e; destruct e; apply keeps_raise].
  destruct (open_csv world path) as [| |records]; try apply keeps_raise.
  destruct (negb _); [apply keeps_raise | now apply read_rows_keeps].
Qed.

Lemma rest_of_deliver_keeps_uuid (r : result) (batch : list reading) :
  keeps uuid_calls
    (record_result batch r ;;
     show_rate_limit r ;;
     last <- lift (last_item batch) ;;
     modify (set_last_timestamp (Some (ts last))) ;;
     print MsgBlank).
Proof.
  apply keeps_bind; [unfold record_result, print; keeps_auto|intros _].
  apply keeps_bind; [apply show_rate_limit_keeps; reflexivity|intros _].
  unfold print. keeps_auto.
Qed.

Lemma simulate_ingestion_draws_keys (lib : Library) (world : World)
    (self : IngestionSimulator) (csv_file : string) (speed : Q)
    (start_time end_time : option string) (batch_size : Z) :
  draws_keys world
    (simulate_ingestion lib world self csv_file speed start_time end_time
       batch_size).
Proof.
  unfold simulate_ingestion.
  apply draws_keys_bind; [apply draws_keys_print|intros _].
  apply draws_keys_bind; [|intros loaded].
  { apply draws_keys_quiet;
      [apply prints_never_post, load_csv_data_prints
      |apply load_csv_data_keeps; reflexivity]. }
  destruct loaded as [|r0 rest]; [apply draws_keys_print|].
  apply draws_keys_bind; [|intros from_start].
  { apply draws_keys_quiet;
      [apply filter_bound_silent | unfold filter_bound; keeps_auto]. }
  apply draws_keys_bind; [|intros in_range].
  { apply draws_keys_quiet;
      [apply filter_bound_silent | unfold filter_bound; keeps_auto]. }
  unfold replay.
  apply draws_keys_bind; [apply draws_keys_print|intros _].
  apply draws_keys_lift. intros first.
  apply draws_keys_lift. intros last.
  do 5 (apply draws_keys_bind; [apply draws_keys_print|intros _]).
  do 3 (apply draws_keys_bind;
          [apply draws_keys_quiet;
             [apply emits_modify | apply keeps_modify]; reflexivity
          |intros _]).
  apply draws_keys_lift. intros starts.
  apply draws_keys_bind.
  - apply draws_keys_for_each. intros i. unfold process_batch.
    apply draws_keys_bind; [|intros _].
    + apply draws_keys_quiet;
        [unfold pace, print, sleep; emits_auto
        |apply pace_keeps; reflexivity].
    + unfold deliver.
      apply draws_keys_bind; [apply draws_keys_print|intros _].
      apply draws_keys_bind; [apply send_readings_draws_key|intros r].
      apply draws_keys_quiet;
        [apply prints_never_post, rest_of_deliver_prints
        |apply rest_of_deliver_keeps_uuid].
  - intros _.
    apply draws_keys_quiet; [unfold print; emits_auto | unfold print; keeps_auto].
Qed.

(** X5.  No request of a run reuses the key of another by design: the
    [Idempotency-Key] headers of the requests of a run are, in the order
    of the requests, the UUIDs the run drew from [uuid4], one draw for
    each request, whether the run completes or not. *)
Theorem idempotency_keys_are_the_draws (lib : Library) (world : World)
    (self : IngestionSimulator) (csv_file : string) (speed : Q)
    (start_time end_time : option string) (batch_size : Z) (s : state) :
  idempotency_keys
    (added_since s
       (snd (simulate_ingestion lib world self csv_file speed start_time
               end_time batch_size s)))
  = map (fun k => Some (uuid4 world k))
      (seq (uuid_calls s)
         (uuid_calls
            (snd (simulate_ingestion lib world self csv_file speed start_time
                    end_time batch_size s)) - uuid_calls s))
  /\ List.length
       (requests
          (added_since s
             (snd (simulate_ingestion lib world self csv_file speed
                     start_time end_time batch_size s))))
     = (uuid_calls
          (snd (simulate_ingestion lib world self csv_file speed start_time
                  end_time batch_size s)) - uuid_calls s)%nat.
Proof.
  destruct (simulate_ingestion_draws_keys lib world self csv_file speed
              start_time end_time batch_size s) as (added & n & Ht & Hu & Hk).
  rewrite (added_since_app _ _ _ Ht), Hu.
  replace (uuid_calls s + n - uuid_calls s)%nat with n by lia.
  split; [exact Hk|].
  apply (f_equal (@List.length _)) in Hk.
  rewrite length_map, length_seq in Hk. rewrite <- Hk.
  clear. induction added as [|e added IH]; [reflexivity|].
  destruct e; cbn; auto.
Qed.

(** ** What the loader returns *)

Lemma rstrip_by_idempotent (p : ascii -> bool) (s : string) :
  rstrip_by p (rstrip_by p s) = rstrip_by p s.
Proof.
  induction s as [|c rest IH]; cbn [rstrip_by]; [reflexivity|].
  destruct (rstrip_by p rest) as [|k kept] eqn:Hkept.
  - destruct (p c) eqn:Hc; cbn [rstrip_by]; [reflexivity|].
    now rewrite Hc.
  - cbn [rstrip_by] in *. now rewrite IH.
Qed.

Lemma lstrip_by_head (p : ascii -> bool) (s : string) :
  lstrip_by p s = EmptyString
  \/ exists c rest, lstrip_by p s = String c rest /\ p c = false.
Proof.
  induction s as [|c rest IH]; cbn [lstrip_by]; [now left|].
  destruct (p c) eqn:Hc; [exact IH|]. right. eauto.
Qed.

Lemma rstrip_by_head (p : ascii -> bool) (c : ascii) (rest : string) :
  p c = false -> exists kept, rstrip_by p (String c rest) = String c kept.
Proof.
  intros Hc. cbn [rstrip_by]. destruct (rstrip_by p rest) as [|k kept].
  - rewrite Hc. eauto.
  - eauto.
Qed.

Lemma strip_by_idempotent (p : ascii -> bool) (s : string) :
  strip_by p (strip_by p s) = strip_by p s.
Proof.
  unfold strip_by.
  destruct (lstrip_by_head p s) as [-> | (c & rest & -> & Hc)];
    [reflexivity|].
  destruct (rstrip_by_head p c rest Hc) as [kept Hkept].
  rewrite Hkept. cbn [lstrip_by]. rewrite Hc, <- Hkept.
  apply rstrip_by_idempotent.
Qed.

Lemma strip_idempotent (s : string) : strip (strip s) = strip s.
Proof. apply strip_by_idempotent. Qed.

Lemma read_row_valid (lib : Library) (row_num : Z)
    (row : list (string * option string)) (r : reading) (s s' : state) :
  try_except (read_row lib row_num row) is_row_error
    (fun e => print (MsgWarnSkip row_num e) ;; ret None) s = (Ok (Some r), s') ->
  valid_reading lib r.
Proof.
  unfold try_except, read_row.
  destruct (dict_get "timestamp" row) as [[t|]|]; try discriminate.
  destruct (dict_get "sensor_id" row) as [[sid|]|]; try discriminate.
  destruct (dict_get "temperature_c" row) as [[v|]|]; try discriminate.
  do 2 run_step. rewrite bind_run.
  destruct (float_of_str lib v) as [x|]; cbn [ret raise fst snd is_row_error];
    try discriminate.
  destruct (parse_instant lib (strip t)) as [d|e] eqn:Hparse; try discriminate.
  destruct (uuid_of_str lib (strip sid)) as [u|] eqn:Huuid; try discriminate.
  intros [= <- _]. unfold valid_reading. cbn [ts sensor_id].
  rewrite !strip_idempotent. repeat split; eauto.
Qed.

Lemma read_rows_valid (lib : Library) (fieldnames : list string)
    (records : list (list string)) :
  forall row_num readings s loaded s',
    Forall (valid_reading lib) readings ->
    read_rows lib fieldnames row_num records readings s = (Ok loaded, s') ->
    Forall (valid_reading lib) loaded.
Proof.
  induction records as [|record rest IH]; intros row_num readings s loaded s' Hacc;
    cbn [read_rows].
  - intros [= <- _]. exact Hacc.
  - destruct record as [|field fields]; [now apply IH|].
    rewrite bind_run.
    destruct (try_except _ _ _ s) as [[parsed|e] s1] eqn:Hrow; [|discriminate].
    apply IH. destruct parsed as [r|]; [|exact Hacc].
    apply Forall_app. split; [exact Hacc|].
    constructor; [|constructor]. eapply read_row_valid. exact Hrow.
Qed.

(** X6.  Every reading [load_csv_data] returns has passed the checks
    of the loader: its timestamp and its sensor id are the stripped
    texts, the timestamp parses as an ISO instant and the sensor id as
    a UUID. *)
Theorem loaded_readings_are_valid (lib : Library) (world : World)
    (path : string) (s s' : state) (loaded : list reading) :
  load_csv_data lib world path s = (Ok loaded, s') ->
  Forall (valid_reading lib) loaded.
Proof.
  unfold load_csv_data, try_except.
  destruct (open_csv world path) as [| |records]; try discriminate.
  destruct (negb _); [discriminate|].
  destruct (read_rows lib _ 2 (tl records) [] s) as [[rs|e] s1] eqn:Hrows;
    [|destruct e; discriminate].
  intros [= <- _]. eapply read_rows_valid; [constructor|exact Hrows].
Qed.

(** The file of the loader scenario: the one reading it yields is
    valid. *)
Lemma loaded_readings_are_valid_witness :
  Forall (valid_reading cpython)
    [{| ts := "2024-01-01T00:00:00Z"; sensor_id := Scenario.sensor;
        value := Finite (-185 # 10) |}].
Proof.
  apply (loaded_readings_are_valid cpython Scenario.bad_timestamp_world
           "data.csv" initial_state
           (emit (Print (MsgWarnTimestamp 3 "not-a-date")) initial_state)).
  vm_compute. reflexivity.
Defined.

(** *** Rows that have all their fields *)

Lemma dict_get_combine_some (key : string) (names values : list string)
    (x : option string) :
  dict_get key (combine names (map Some values)) = Some x ->
  exists v, x = Some v.
Proof.
  revert values. induction names as [|n names IH]; intros [|v values]; cbn;
    try discriminate.
  destruct (dict_get key (combine names (map Some values))) as [later|] eqn:Hl.
  - intros [= <-]. eapply IH. exact Hl.
  - destruct (String.eqb n key); [|discriminate]. intros [= <-]. eauto.
Qed.

Lemma dict_row_complete (key : string) (fieldnames record : list string) :
  mem_str key fieldnames = true ->
  (List.length fieldnames <= List.length record)%nat ->
  exists v, dict_get key (dict_row fieldnames record) = Some (Some v).
Proof.
  intros Hmem Hlen. unfold dict_row.
  replace (List.length fieldnames - List.length record)%nat with O by lia.
  cbn [repeat]. rewrite app_nil_r.
  revert record Hlen Hmem. unfold mem_str.
  induction fieldnames as [|n names IH]; intros [|v values]; cbn;
    try discriminate; try lia.
  intros Hlen Hmem.
  destruct (dict_get key (combine names (map Some values))) as [later|] eqn:Hl.
  - destruct (dict_get_combine_some _ _ _ _ Hl) as [w ->]. eauto.
  - destruct (String.eqb key n) eqn:Hn.
    + apply String.eqb_eq in Hn. subst n. rewrite String.eqb_refl. eauto.
    + cbn in Hmem. destruct (IH values ltac:(lia) Hmem) as [w Hw]. congruence.
Qed.

Lemma read_rows_complete (lib : Library) (fieldnames : list string)
    (records : list (list string)) :
  forallb (fun c => mem_str c fieldnames) required_columns = true ->
  Forall (fun record =>
            record = []
            \/ (List.length fieldnames <= List.length record)%nat) records ->
  forall row_num readings s,
    exists loaded s' added,
      read_rows lib fieldnames row_num records readings s = (Ok loaded, s')
      /\ trace s' = trace s ++ added
      /\ Forall is_warning added
      /\ (List.length loaded + List.length added
          = List.length readings
            + List.length (filter (fun record => match record with
                                                 | [] => false
                                                 | _ => true
                                                 end) records))%nat.
Proof.
  intros Hcols Hall. cbn in Hcols. rewrite !andb_true_iff in Hcols.
  destruct Hcols as (Ht & Hs & Hv & _).
  induction Hall as [|record rest Hrecord _ IH]; intros row_num readings s;
    cbn [read_rows filter].
  - exists readings, s, []. rewrite app_nil_r. repeat split; auto; cbn; lia.
  - destruct record as [|field fields]; [apply IH|].
    destruct Hrecord as [Hnil | Hlen]; [discriminate|].
    destruct (dict_row_complete _ _ _ Ht Hlen) as [t Hgt].
    destruct (dict_row_complete _ _ _ Hs Hlen) as [sid Hgs].
    destruct (dict_row_complete _ _ _ Hv Hlen) as [v Hgv].
    pose proof (complete_row_is_kept_or_skipped lib row_num _ t sid v s
                  Hgt Hgs Hgv) as Hrow.
    cbv zeta in Hrow. rewrite bind_run.
    destruct Hrow as [[r Hr] | [Hnone Htrace]].
    + rewrite Hr.
      destruct (IH (row_num + 1) (readings ++ [r]) s)
        as (loaded & s' & added & Hrun & Htr & Hw & Hcount).
      exists loaded, s', added. rewrite Hrun. repeat split; auto.
      rewrite Hcount, length_app. cbn. lia.
    + destruct (try_except _ _ _ s) as [[parsed|e] s1]; cbn [fst snd] in *;
        [|discriminate].
      injection Hnone as ->.
      destruct (IH (row_num + 1) readings s1)
        as (loaded & s' & added & Hrun & Htr & Hw & Hcount).
      rewrite Hrun.
      destruct Htrace as [H1 | [H1 | H1]];
        (eexists loaded, s', (_ :: added); repeat split;
         [rewrite Htr, H1, <- app_assoc; reflexivity
         |constructor; [exact I|exact Hw]
         |cbn [List.length]; lia]).
Qed.

(** X7.  A file whose header has the three required columns and whose
    rows are no shorter than the header always loads: no row aborts the
    load, and each row of the file yields either one reading or one
    warning, nothing else being printed. *)
Theorem complete_rows_always_load (lib : Library) (world : World)
    (path : string) (fieldnames : list string) (rows : list (list string))
    (s : state) :
  open_csv world path = Records (fieldnames :: rows) ->
  forallb (fun c => mem_str c fieldnames) required_columns = true ->
  Forall (fun record =>
            record = []
            \/ (List.length fieldnames <= List.length record)%nat) rows ->
  exists loaded s',
    load_csv_data lib world path s = (Ok loaded, s')
    /\ Forall is_warning (added_since s s')
    /\ (List.length loaded + List.length (added_since s s')
        = List.length (data_rows (fieldnames :: rows)))%nat.
Proof.
  intros Hopen Hcols Hrows. unfold load_csv_data, try_except.
  rewrite Hopen, Hcols. cbn [negb tl].
  destruct (read_rows_complete lib fieldnames rows Hcols Hrows 2 [] s)
    as (loaded & s' & added & Hrun & Htr & Hw & Hcount).
  rewrite Hrun. exists loaded, s'. rewrite (added_since_app _ _ _ Htr).
  repeat split; auto.
Qed.

(** Four rows, one of them empty: no reading, three warnings. *)
Lemma complete_rows_always_load_witness :
  exists loaded s',
    load_csv_data cpython Scenario.rejected_world "data.csv" initial_state
    = (Ok loaded, s')
    /\ Forall is_warning (added_since initial_state s')
    /\ (List.length loaded + List.length (added_since initial_state s')
        = 3)%nat.
Proof.
  apply (complete_rows_always_load cpython Scenario.rejected_world "data.csv"
           Scenario.header (tl Scenario.rejected_rows) initial_state).
  - reflexivity.
  - reflexivity.
  - repeat constructor; cbn; lia.
Defined.

(** *** How a load fails *)

Lemma read_row_raises (lib : Library) (row_num : Z)
    (row : list (string * option string)) (s : state) (e : exn) :
  fst (try_except (read_row lib row_num row) is_row_error
         (fun e => print (MsgWarnSkip row_num e) ;; ret None) s) = Raised e ->
  e = TypeError \/ e = AttributeError.
Proof.
  unfold try_except, read_row.
  destruct (dict_get "timestamp" row) as [[t|]|]; cbn;
    try discriminate; try (intros [= <-]; now auto).
  destruct (dict_get "sensor_id" row) as [[sid|]|]; cbn;
    try discriminate; try (intros [= <-]; now auto).
  destruct (dict_get "temperature_c" row) as [[v|]|]; cbn;
    try discriminate; try (intros [= <-]; now auto).
  rewrite bind_run.
  destruct (float_of_str lib v) as [x|]; cbn; try discriminate.
  destruct (parse_instant lib (strip t)) as [d|e0]; cbn; try discriminate.
  destruct (uuid_of_str lib (strip sid)) as [u|]; cbn; discriminate.
Qed.

Lemma read_rows_raises (lib : Library) (fieldnames : list string)
    (records : list (list string)) :
  forall row_num readings s e,
    fst (read_rows lib fieldnames row_num records readings s) = Raised e ->
    e = TypeError \/ e = AttributeError.
Proof.
  induction records as [|record rest IH]; intros row_num readings s e;
    cbn [read_rows].
  - discriminate.
  - destruct record as [|field fields]; [apply IH|].
    rewrite bind_run.
    pose proof (read_row_raises lib row_num (dict_row fieldnames (field :: fields)) s)
      as Hrow.
    destruct (try_except _ _ _ s) as [[parsed|e0] s1]; cbn [fst] in *.
    + apply IH.
    + intros [= <-]. now apply Hrow.
Qed.

Lemma load_csv_data_raises (lib : Library) (world : World) (path : string)
    (s : state) (e : exn) :
  fst (load_csv_data lib world path s) = Raised e ->
  (e = FileNotFoundError /\ open_csv world path = Missing)
  \/ (e = PyException /\ open_csv world path <> Missing).
Proof.
  unfold load_csv_data, try_except.
  destruct (open_csv world path) as [| |records] eqn:Hopen; cbn.
  - intros [= <-]. now left.
  - intros [= <-]. right. split; [reflexivity|discriminate].
  - destruct (negb _); cbn.
    + intros [= <-]. right. split; [reflexivity|discriminate].
    + pose proof (read_rows_raises lib
                    (match records with [] => [] | h :: _ => h end)
                    (tl records) 2 [] s) as Hrows.
      destruct (read_rows _ _ _ _ _ s) as [[loaded|e0] s1]; cbn [fst] in *;
        [discriminate|].
      destruct (Hrows e0 eq_refl) as [-> | ->]; cbn; intros [= <-];
        right; (split; [reflexivity|discriminate]).
Qed.

(** X8.  [load_csv_data] fails with one of two exceptions only, and
    leaves the reason behind: [FileNotFoundError] when, and only when,
    the file does not exist; the plain [Exception] for everything else,
    a header that lacks a required column included, which is reported
    before any row is read. *)
Theorem load_csv_data_failures (lib : Library) (world : World)
    (path : string) (s : state) :
  (open_csv world path = Missing ->
   load_csv_data lib world path s = (Raised FileNotFoundError, s))
  /\ (forall e,
        fst (load_csv_data lib world path s) = Raised e ->
        (e = FileNotFoundError /\ open_csv world path = Missing)
        \/ (e = PyException /\ open_csv world path <> Missing))
  /\ (forall records,
        open_csv world path = Records records ->
        forallb (fun c => mem_str c (match records with
                                     | [] => []
                                     | h :: _ => h
                                     end)) required_columns = false ->
        load_csv_data lib world path s = (Raised PyException, s)).
Proof.
  split; [|split].
  - intros Hopen. unfold load_csv_data, try_except. now rewrite Hopen.
  - apply load_csv_data_raises.
  - intros records Hopen Hmissing.
    now apply load_without_columns_aborts with (records := records).
Qed.

(** ** A file without a valid reading *)

(** X9.  When loading yields no reading, the run prints that no valid
    reading was found and returns normally at once: it sends nothing,
    and it does not look at the time bounds, the speed or the batch
    size, so that a bound that is no timestamp or a batch size of zero
    goes unnoticed. *)
Theorem run_without_valid_reading (lib : Library) (world : World)
    (self : IngestionSimulator) (csv_file : string) (speed : Q)
    (start_time end_time : option string) (batch_size : Z) (s s1 : state) :
  load_csv_data lib world csv_file (emit (Print (MsgLoading csv_file)) s)
  = (Ok [], s1) ->
  simulate_ingestion lib world self csv_file speed start_time end_time
    batch_size s
  = (Ok tt, emit (Print MsgNoValidReadings) s1)
  /\ Forall is_print (added_since s (emit (Print MsgNoValidReadings) s1)).
Proof.
  intros Hload. unfold simulate_ingestion. run_step. rewrite bind_run.
  destruct (load_csv_data_prints lib world csv_file
              (emit (Print (MsgLoading csv_file)) s))
    as (warned & Hwarned & Hprints).
  rewrite Hload in *. cbn [snd] in Hwarned. split; [reflexivity|].
  rewrite (added_since_app s _ ([Print (MsgLoading csv_file)] ++ warned
                               ++ [Print MsgNoValidReadings])).
  - apply Forall_app. split; [repeat constructor|].
    apply Forall_app. split; [exact Hprints|repeat constructor].
  - cbn [emit trace]. rewrite Hwarned. cbn [emit trace].
    now rewrite <- !app_assoc.
Qed.

(** A file whose rows are all rejected, run with a start bound that is
    no timestamp and a batch size of zero. *)
Lemma run_without_valid_reading_witness :
  simulate_ingestion cpython Scenario.rejected_world Scenario.me "data.csv" 1
    (Some "yesterday") None 0 initial_state
  = (Ok tt,
     emit (Print MsgNoValidReadings)
       (emit (Print (MsgWarnSkip 4 ValueError))
          (emit (Print (MsgWarnSensor 3 "sensor_001"))
             (emit (Print (MsgWarnTimestamp 2 "not-a-date"))
                (emit (Print (MsgLoading "data.csv")) initial_state))))).
Proof.
  apply (run_without_valid_reading cpython Scenario.rejected_world Scenario.me
           "data.csv" 1 (Some "yesterday") None 0 initial_state).
  vm_compute. reflexivity.
Defined.

(** ** The time filter *)

Lemma keep_if_filter {A : Type} (cond : A -> outcome bool) (items kept : list A) :
  keep_if cond items = Ok kept ->
  kept = filter (fun x => match cond x with Ok b => b | Raised _ => false end)
           items.
Proof.
  revert kept. induction items as [|x items IH]; intros kept; cbn.
  - now intros [= <-].
  - destruct (cond x) as [b|e]; [|discriminate].
    destruct (keep_if cond items) as [rest|e]; [|discriminate].
    intros [= <-]. rewrite (IH rest eq_refl). now destruct b.
Qed.

Lemma filter_bound_run (lib : Library) (text : string) (limit : datetime)
    (cond : datetime -> reading -> outcome bool) (readings : list reading)
    (s : state) :
  text <> "" -> parse_instant lib text = Ok limit ->
  filter_bound lib (Some text) cond readings s
  = (keep_if (cond limit) readings, s).
Proof.
  intros Htext Hparse. unfold filter_bound.
  rewrite (truthy_some _ Htext). run_step. rewrite Hparse. reflexivity.
Qed.

Lemma datetime_diff_same (d : datetime) : datetime_diff d d = Ok 0.
Proof.
  unfold datetime_diff. destruct (utcoffset d) as [o|]; f_equal; lia.
Qed.

(** X10.  A time bound that is absent or the empty text filters nothing.
    A bound that parses keeps, in their order, exactly the readings whose
    instant is not before it (for [start_time]) or not after it (for
    [end_time]): both bounds are inclusive, a reading stamped at the
    bound itself is kept. *)
Theorem time_filter_is_inclusive (lib : Library) (bound : option string)
    (readings : list reading) (s : state) :
  (truthy bound = false ->
   filter_bound lib bound (not_before lib) readings s = (Ok readings, s)
   /\ filter_bound lib bound (not_after lib) readings s = (Ok readings, s))
  /\ forall text limit,
       bound = Some text -> text <> "" -> parse_instant lib text = Ok limit ->
       (forall kept s',
           filter_bound lib bound (not_before lib) readings s = (Ok kept, s') ->
           s' = s /\ kept = filter (passes (not_before lib limit)) readings)
       /\ (forall kept s',
             filter_bound lib bound (not_after lib) readings s = (Ok kept, s') ->
             s' = s /\ kept = filter (passes (not_after lib limit)) readings)
       /\ (forall r,
             parse_instant lib (ts r) = Ok limit ->
             passes (not_before lib limit) r = true
             /\ passes (not_after lib limit) r = true).
Proof.
  split.
  - intros Hbound. unfold filter_bound. rewrite Hbound. split; reflexivity.
  - intros text limit -> Htext Hparse. split; [|split].
    + intros kept s'. rewrite (filter_bound_run _ _ _ _ _ _ Htext Hparse).
      intros [= Hkeep <-]. split; [reflexivity|].
      now apply keep_if_filter.
    + intros kept s'. rewrite (filter_bound_run _ _ _ _ _ _ Htext Hparse).
      intros [= Hkeep <-]. split; [reflexivity|].
      now apply keep_if_filter.
    + intros r Hr. unfold passes, not_before, not_after, datetime_ge, datetime_le.
      rewrite Hr, datetime_diff_same. split; reflexivity.
Qed.

Lemma datetime_diff_mixed (a b : datetime) :
  (utcoffset a = None /\ utcoffset b <> None)
  \/ (utcoffset a <> None /\ utcoffset b = None) ->
  datetime_diff a b = Raised TypeError.
Proof.
  unfold datetime_diff.
  destruct (utcoffset a), (utcoffset b); intros [[H1 H2]|[H1 H2]];
    congruence.
Qed.

(** X11.  A time bound written without an offset cannot be compared
    with timestamps that carry one, nor the other way round: when the
    first reading loaded and the bound differ in this, the run raises
    [TypeError] in the filter, after loading and before anything is
    sent. *)
Theorem bound_without_offset_raises (lib : Library) (world : World)
    (self : IngestionSimulator) (csv_file : string) (speed : Q)
    (start_time end_time : option string) (batch_size : Z) (s s1 : state)
    (r : reading) (rest : list reading) (text : string) (d limit : datetime) :
  load_csv_data lib world csv_file (emit (Print (MsgLoading csv_file)) s)
  = (Ok (r :: rest), s1) ->
  start_time = Some text
  \/ (truthy start_time = false /\ end_time = Some text) ->
  text <> "" ->
  parse_instant lib text = Ok limit ->
  parse_instant lib (ts r) = Ok d ->
  (utcoffset d = None /\ utcoffset limit <> None)
  \/ (utcoffset d <> None /\ utcoffset limit = None) ->
  simulate_ingestion lib world self csv_file speed start_time end_time
    batch_size s
  = (Raised TypeError, s1).
Proof.
  intros Hload Hbound Htext Hlimit Hr Hmixed.
  unfold simulate_ingestion. run_step. rewrite bind_run, Hload.
  destruct Hbound as [-> | [Hstart ->]].
  - rewrite bind_run, (filter_bound_run _ _ _ _ _ _ Htext Hlimit).
    cbn [keep_if]. unfold not_before at 1, datetime_ge.
    now rewrite Hr, (datetime_diff_mixed _ _ Hmixed).
  - rewrite bind_run. unfold filter_bound at 1. rewrite Hstart.
    cbn [ret]. rewrite bind_run, (filter_bound_run _ _ _ _ _ _ Htext Hlimit).
    cbn [keep_if]. unfold not_after at 1, datetime_le.
    now rewrite Hr, (datetime_diff_mixed _ _ Hmixed).
Qed.

(** A file stamped in UTC, replayed from a start bound without offset. *)
Lemma bound_without_offset_raises_witness :
  simulate_ingestion cpython Scenario.one_row_world Scenario.me "data.csv" 1
    (Some "2024-01-01T00:00:00") None 100 initial_state
  = (Raised TypeError, emit (Print (MsgLoading "data.csv")) initial_state).
Proof.
  apply (bound_without_offset_raises cpython Scenario.one_row_world
           Scenario.me "data.csv" 1 (Some "2024-01-01T00:00:00") None 100
           initial_state _
           {| ts := "2024-01-01T00:00:00Z"; sensor_id := Scenario.sensor;
              value := Finite (-185 # 10) |} []
           "2024-01-01T00:00:00"
           {| wall := 1704067200000000; utcoffset := Some 0 |}
           {| wall := 1704067200000000; utcoffset := None |}).
  - vm_compute. reflexivity.
  - now left.
  - discriminate.
  - vm_compute. reflexivity.
  - vm_compute. reflexivity.
  - right. split; [discriminate | reflexivity].
Defined.

(** ** Answers and timestamps the loop cannot digest *)

Lemma Qlt_bool_of_lt (x y : Q) : (x < y)%Q -> Qlt_bool x y = true.
Proof.
  intros H. unfold Qlt_bool. apply negb_true_iff.
  destruct (Qle_bool y x) eqn:Hle; [|reflexivity].
  apply Qle_bool_iff in Hle. now apply Qlt_not_le in H.
Qed.

(** X12.  Timestamps with and without offset do not mix: when the
    speed is positive and the first reading of a batch and the last
    reading of the batch before differ in having an offset, the loop
    raises [TypeError] while computing the delay, before the batch is
    sent. *)
Theorem mixed_timestamps_abort_pacing (lib : Library) (world : World)
    (self : IngestionSimulator) (speed : Q) (batch_size : Z)
    (readings : list reading) (i : Z) (s : state) (previous : string)
    (first : reading) (rest : list reading) (a b : datetime) :
  last_timestamp s = Some previous -> previous <> "" -> (0 < speed)%Q ->
  slice readings i (i + batch_size) = first :: rest ->
  parse_instant lib (ts first) = Ok a ->
  parse_instant lib previous = Ok b ->
  (utcoffset a = None /\ utcoffset b <> None)
  \/ (utcoffset a <> None /\ utcoffset b = None) ->
  process_batch lib world self speed batch_size readings i s
  = (Raised TypeError, s).
Proof.
  intros Hlast Hprevious Hspeed Hslice Ha Hb Hmixed.
  unfold process_batch. rewrite Hslice, bind_run. unfold pace.
  run_step. rewrite Hlast, (truthy_some _ Hprevious), (Qlt_bool_of_lt _ _ Hspeed).
  cbn [andb first_item]. run_step. rewrite Ha. run_step. rewrite Hb. run_step.
  now rewrite (datetime_diff_mixed _ _ Hmixed).
Qed.

(** A file whose first row has no offset and whose second row is in UTC:
    both rows load, and the second batch is never sent. *)
Lemma mixed_timestamps_abort_pacing_witness :
  process_batch cpython Scenario.mixed_world Scenario.me 1 1
    [Scenario.reading_at "2024-01-01T00:00:00";
     Scenario.reading_at "2024-01-01T00:00:10Z"] 1
    (set_last_timestamp (Some "2024-01-01T00:00:00") initial_state)
  = (Raised TypeError,
     set_last_timestamp (Some "2024-01-01T00:00:00") initial_state)
  /\ fst (simulate_ingestion cpython Scenario.mixed_world Scenario.me
            "data.csv" 1 None None 1 initial_state) = Raised TypeError
  /\ steps (trace (snd (simulate_ingestion cpython Scenario.mixed_world
                          Scenario.me "data.csv" 1 None None 1 initial_state)))
     = [Send "2024-01-01T00:00:00"].
Proof.
  split; [|vm_compute; split; reflexivity].
  apply (mixed_timestamps_abort_pacing cpython Scenario.mixed_world Scenario.me
           1 1 _ 1 _ "2024-01-01T00:00:00"
           (Scenario.reading_at "2024-01-01T00:00:10Z") []
           {| wall := 1704067210000000; utcoffset := Some 0 |}
           {| wall := 1704067200000000; utcoffset := None |}).
  - reflexivity.
  - discriminate.
  - reflexivity.
  - reflexivity.
  - vm_compute. reflexivity.
  - vm_compute. reflexivity.
  - right. split; [discriminate | reflexivity].
Defined.

Lemma record_result_bad_detail (batch : list reading) (res : result)
    (s : state) (fields : list (string * json)) (detail : json) :
  result_status_code res <> 200 ->
  result_response res = JObj fields ->
  dict_get "error" fields = Some detail ->
  (forall inner, detail <> JObj inner) ->
  record_result batch res s
  = (Raised AttributeError,
     emit (Print (MsgBatchFailed (result_status_code res)))
       (set_total_errors (total_errors s + Z.of_nat (List.length batch)) s)).
Proof.
  intros Hstatus Hresponse Herror Hdetail. unfold record_result.
  apply Z.eqb_neq in Hstatus. rewrite Hstatus, Hresponse.
  do 4 run_step. cbn [json_contains json_item]. unfold dict_has.
  rewrite Herror. do 2 run_step.
  assert (Hget : json_get "message" (JStr "Unknown error") detail
                 = Raised AttributeError).
  { destruct detail; try reflexivity. now destruct (Hdetail fields0). }
  now rewrite Hget.
Qed.

(** X13.  The detail of a failed batch is read with [.get] from the
    [error] field of the answer: when an answer with a status other
    than 200 has an [error] field that is not an object (a plain string,
    say), the loop body raises [AttributeError] after the request was
    sent and the batch was counted as failed, and the run stops there:
    the timestamp of the batch is not recorded. *)
Theorem failure_detail_must_be_an_object (world : World)
    (self : IngestionSimulator) (batch_size : Z) (readings : list reading)
    (i : Z) (batch : list reading) (s : state) (r : response)
    (fields : list (string * json)) (detail : json) :
  (forall req, session_post world (post_calls s) req = Responds r) ->
  status_code r <> 200 ->
  content r = JsonContent (JObj fields) ->
  dict_get "error" fields = Some detail ->
  (forall inner, detail <> JObj inner) ->
  fst (deliver world self batch_size readings i batch s) = Raised AttributeError
  /\ total_errors (snd (deliver world self batch_size readings i batch s))
     = total_errors s + Z.of_nat (List.length batch)
  /\ last_timestamp (snd (deliver world self batch_size readings i batch s))
     = last_timestamp s
  /\ List.length
       (requests (added_since s
                    (snd (deliver world self batch_size readings i batch s))))
     = 1%nat.
Proof.
  intros Hanswer Hstatus Hcontent Herror Hdetail.
  unfold deliver. do 2 run_step.
  unfold send_readings, dumps, utcnow, new_uuid4, post. do 5 run_step.
  rewrite Hanswer. unfold normalise. rewrite Hcontent.
  rewrite (record_result_bad_detail _ _ _ fields detail); trivial.
  cbn [fst snd]. do 3 (split; [reflexivity|]).
  erewrite added_since_app.
  2: { cbn. rewrite <- !app_assoc. reflexivity. }
  reflexivity.
Qed.

(** A server that answers 401 with the body [{"error": "Invalid
    signature"}]: the first batch raises, and the second is never sent. *)
Lemma failure_detail_must_be_an_object_witness :
  fst (deliver Scenario.refusing_world Scenario.me 2 Scenario.three 0
         (slice Scenario.three 0 2) initial_state) = Raised AttributeError
  /\ total_errors
       (snd (deliver Scenario.refusing_world Scenario.me 2 Scenario.three 0
               (slice Scenario.three 0 2) initial_state)) = 2
  /\ last_timestamp
       (snd (deliver Scenario.refusing_world Scenario.me 2 Scenario.three 0
               (slice Scenario.three 0 2) initial_state)) = None
  /\ List.length
       (requests
          (added_since initial_state
             (snd (deliver Scenario.refusing_world Scenario.me 2
                     Scenario.three 0 (slice Scenario.three 0 2)
                     initial_state)))) = 1%nat.
Proof.
  apply (failure_detail_must_be_an_object Scenario.refusing_world Scenario.me
           2 Scenario.three 0 (slice Scenario.three 0 2) initial_state
           {| status_code := 401;
              content := JsonContent (JObj [("error", JStr "Invalid signature")]);
              response_headers := [] |}
           [("error", JStr "Invalid signature")] (JStr "Invalid signature")).
  - reflexivity.
  - discriminate.
  - reflexivity.
  - reflexivity.
  - discriminate.
Defined.

(** ** Runs that complete *)


























(** ** The order of the working set *)

Lemma ascii_compare_refl (c : ascii) : Ascii.compare c c = Eq.
Proof. unfold Ascii.compare. apply N.compare_refl. Qed.

Lemma ascii_compare_lt_trans (x y z : ascii) :
  Ascii.compare x y = Lt -> Ascii.compare y z = Lt -> Ascii.compare x z = Lt.
Proof.
  unfold Ascii.compare. rewrite !N.compare_lt_iff. apply N.lt_trans.
Qed.

Lemma string_compare_lt_trans (a b c : string) :
  String.compare a b = Lt -> String.compare b c = Lt -> String.compare a c = Lt.
Proof.
  revert b c. induction a as [|x a IH]; intros [|y b] [|z c]; cbn;
    try discriminate; try reflexivity.
  destruct (Ascii.compare x y) eqn:Hxy; try discriminate;
    destruct (Ascii.compare y z) eqn:Hyz; try discriminate.
  - apply Ascii.compare_eq_iff in Hxy, Hyz. subst.
    rewrite ascii_compare_refl. apply IH.
  - apply Ascii.compare_eq_iff in Hxy. subst. now rewrite Hyz.
  - apply Ascii.compare_eq_iff in Hyz. subst. now rewrite Hxy.
  - now rewrite (ascii_compare_lt_trans _ _ _ Hxy Hyz).
Qed.

Lemma str_lt_trans (a b c : string) :
  str_lt a b = true -> str_lt b c = true -> str_lt a c = true.
Proof.
  unfold str_lt, String.ltb.
  destruct (String.compare a b) eqn:Hab; try discriminate.
  destruct (String.compare b c) eqn:Hbc; try discriminate.
  now rewrite (string_compare_lt_trans _ _ _ Hab Hbc).
Qed.

Lemma str_lt_asym (a b : string) : str_lt a b = true -> str_lt b a = false.
Proof.
  unfold str_lt, String.ltb. rewrite (String.compare_antisym a b).
  now destruct (String.compare b a).
Qed.

Lemma str_lt_irrefl (a : string) : str_lt a a = false.
Proof.
  destruct (str_lt a a) eqn:H; [|reflexivity].
  now rewrite (str_lt_asym _ _ H) in H.
Qed.

Section Sorting.

Context {A : Type} (key : A -> string).

Lemma insert_by_sorted (x : A) (l : list A) :
  sorted_by_text key l -> sorted_by_text key (insert_by key x l).
Proof.
  unfold sorted_by_text. induction 1 as [|y l Hsorted IH Hall]; cbn [insert_by].
  - repeat constructor.
  - destruct (str_lt (key x) (key y)) eqn:Hxy.
    + constructor; [now constructor|].
      constructor; [now apply str_lt_asym|].
      eapply Forall_impl; [|exact Hall]. intros z Hz. cbv beta in *.
      destruct (str_lt (key z) (key x)) eqn:Hzx; [|reflexivity].
      now rewrite (str_lt_trans _ _ _ Hzx Hxy) in Hz.
    + constructor; [exact IH|].
      eapply Permutation_Forall; [symmetry; apply insert_by_perm|].
      now constructor.
Qed.

(** In a sorted list, a new element goes behind the elements with its
    key. *)
Lemma insert_by_with_key (x : A) (l : list A) (k : string) :
  sorted_by_text key l ->
  with_key key k (insert_by key x l)
  = with_key key k l ++ with_key key k [x].
Proof.
  unfold sorted_by_text, with_key.
  induction 1 as [|y l Hsorted IH Hall]; cbn [insert_by].
  - reflexivity.
  - destruct (str_lt (key x) (key y)) eqn:Hxy.
    + cbn [filter]. destruct (String.eqb (key x) k) eqn:Hxk;
        [|now rewrite app_nil_r].
      apply String.eqb_eq in Hxk. subst k.
      assert (Hy : String.eqb (key y) (key x) = false).
      { apply String.eqb_neq. intros Heq. rewrite Heq in Hxy.
        now rewrite str_lt_irrefl in Hxy. }
      rewrite Hy.
      assert (Hnone : filter (fun z => String.eqb (key z) (key x)) l = []).
      { clear IH. induction Hall as [|z l Hz Hall IHl]; [reflexivity|].
        cbn [filter]. inversion Hsorted; subst.
        destruct (String.eqb (key z) (key x)) eqn:Hzx; [|now apply IHl].
        apply String.eqb_eq in Hzx. rewrite Hzx in Hz. congruence. }
      now rewrite Hnone.
    + cbn [filter]. rewrite IH.
      now destruct (String.eqb (key y) k).
Qed.

Lemma fold_insert_sorted (l acc : list A) :
  sorted_by_text key acc ->
  sorted_by_text key (fold_left (fun acc x => insert_by key x acc) l acc)
  /\ forall k,
       with_key key k (fold_left (fun acc x => insert_by key x acc) l acc)
       = with_key key k acc ++ with_key key k l.
Proof.
  revert acc. induction l as [|x l IH]; intros acc Hacc; cbn [fold_left].
  - split; [exact Hacc|]. intros k. unfold with_key. cbn. now rewrite app_nil_r.
  - destruct (IH (insert_by key x acc) (insert_by_sorted x acc Hacc))
      as [Hsorted Hkeys].
    split; [exact Hsorted|]. intros k.
    rewrite Hkeys, (insert_by_with_key x acc k Hacc), <- app_assoc.
    f_equal. unfold with_key. cbn [filter].
    now destruct (String.eqb (key x) k).
Qed.

End Sorting.

(** X16.  The working set is sent in the order of the sort, which is
    the order of the timestamp texts and is stable: the sorted list is a
    permutation of the filtered one, no reading comes after a reading
    whose timestamp text is greater, and readings with the same
    timestamp text keep the order they had in the file. *)
Theorem sort_is_stable_and_ordered (filtered : list reading) :
  Permutation (sort_by ts filtered) filtered
  /\ sorted_by_text ts (sort_by ts filtered)
  /\ forall text,
       with_key ts text (sort_by ts filtered) = with_key ts text filtered.
Proof.
  split; [apply sort_by_perm|].
  destruct (fold_insert_sorted ts filtered [] (SSorted_nil _)) as [Hsorted Hkeys].
  split; [exact Hsorted|]. intros text. apply Hkeys.
Qed.

(** ** The command line *)

Lemma or_else_truthy (a : option string) (b : string) :
  truthy a = true -> a = Some (or_else a b).
Proof.
  destruct a as [[|c text]|]; cbn; try discriminate; reflexivity.
Qed.

(** X17.  [main] exits with status 1 and the line about the secret
    when [HMAC_SECRET] is unset or empty, before the simulator exists:
    nothing of the run is printed and nothing is sent.  With a secret it
    runs the simulator built from the base URL without its trailing
    slashes, the secret and the device id, which is the one given or
    else a fresh UUID; it returns when the run returns and exits with
    status 1 when the run raises, whatever the exception. *)
Theorem main_exit_status (lib : Library) (world : World)
    (getenv : string -> option string) (args : arguments) (s : state) :
  (truthy (getenv "HMAC_SECRET") = false ->
   fst (main lib world getenv args s) = Exited 1 MsgSecretRequired
   /\ trace (snd (main lib world getenv args s)) = trace s
   /\ post_calls (snd (main lib world getenv args s)) = post_calls s)
  /\ (truthy (getenv "HMAC_SECRET") = true ->
      exists simulator s1,
        getenv "HMAC_SECRET" = Some (hmac_secret simulator)
        /\ (forall prefix, api_url simulator <> (prefix ++ "/")%string)
        /\ (truthy (args_device_id args) = true ->
            args_device_id args = Some (device_id simulator) /\ s1 = s)
        /\ (truthy (args_device_id args) = false ->
            device_id simulator = uuid4 world (uuid_calls s)
            /\ s1 = count_uuid s)
        /\ main lib world getenv args s
           = (match fst (simulate_ingestion lib world simulator (args_csv args)
                           (args_speed args) (args_start args) (args_end args)
                           (args_batch_size args) s1) with
              | Ok _ => Returned
              | Raised e => Exited 1 (MsgError e)
              end,
              snd (simulate_ingestion lib world simulator (args_csv args)
                     (args_speed args) (args_start args) (args_end args)
                     (args_batch_size args) s1))).
Proof.
  unfold main. split.
  - intros Hsecret. rewrite Hsecret.
    destruct (truthy (args_device_id args)); cbn; repeat split.
  - intros Hsecret. rewrite Hsecret. cbn [negb].
    destruct (truthy (args_device_id args)) eqn:Hdevice; cbv beta iota;
      match goal with
      | |- context [ simulate_ingestion _ _ (init ?u ?k ?d) _ _ _ _ _ ?s1 ] =>
          exists (init u k d), s1
      end.
    + split; [|split; [|split; [|split]]].
      * cbn [init hmac_secret]. now apply or_else_truthy.
      * apply rstrip_no_slash.
      * intros _. split; [|reflexivity].
        cbn [init device_id]. now apply or_else_truthy.
      * discriminate.
      * now destruct (simulate_ingestion _ _ _ _ _ _ _ _ s) as [[[]|e] s2].
    + split; [|split; [|split; [|split]]].
      * cbn [init hmac_secret]. now apply or_else_truthy.
      * apply rstrip_no_slash.
      * discriminate.
      * intros _. split; reflexivity.
      * now destruct (simulate_ingestion _ _ _ _ _ _ _ _ (count_uuid s))
          as [[[]|e] s2].
Qed.



(** ** The exceptions a run can end with *)

Section Raises.

Variable P : exn -> Prop.








End Raises.
















(** ** The progress line *)

Lemma progress_app (a b : list event) :
  progress (a ++ b) = progress a ++ progress b.
Proof. unfold progress. apply flat_map_app. Qed.

Lemma progress_none (events : list event) :
  Forall not_progress events -> progress events = [].
Proof.
  induction 1 as [|e events He _ IH]; [reflexivity|].
  destruct e as [[]| |]; cbn in *; try contradiction; exact IH.
Qed.

Lemma after_progress_line (world : World) (self : IngestionSimulator)
    (batch : list reading) :
  emits not_progress
    (r <- send_readings world self batch ;;
     record_result batch r ;;
     show_rate_limit r ;;
     last <- lift (last_item batch) ;;
     modify (set_last_timestamp (Some (ts last))) ;;
     print MsgBlank).
Proof.
  apply emits_bind; [|intros r].
  - unfold send_readings.
    apply emits_bind; [apply dumps_silent|intros ?].
    apply emits_bind; [apply utcnow_silent|intros ?].
    apply emits_bind; [apply new_uuid4_silent|intros ?].
    apply emits_bind; [apply post_emits; exact I|intros ?].
    apply emits_ret.
  - apply emits_bind; [unfold record_result, print; emits_auto|intros _].
    apply emits_bind; [unfold show_rate_limit, print; emits_auto|intros _].
    unfold print. emits_auto.
Qed.

Lemma py_range_nth (n : nat) (step : Z) (starts : list Z) (j : nat) (i : Z) :
  0 < step ->
  py_range 0 (Z.of_nat n) step = Ok starts ->
  nth_error starts j = Some i ->
  i / step + 1 = Z.of_nat j + 1
  /\ (Z.of_nat n + step - 1) / step = Z.of_nat (List.length starts).
Proof.
  intros Hstep. unfold py_range.
  destruct (step =? 0) eqn:H0; [apply Z.eqb_eq in H0; lia|].
  destruct (0 <? step) eqn:Hpos; [|apply Z.ltb_ge in Hpos; lia].
  intros [= <-] Hnth. rewrite length_map, length_seq.
  assert (Hcount : 0 <= (Z.of_nat n - 0 + step - 1) / step)
    by (apply Z.div_pos; lia).
  split.
  - rewrite nth_error_map in Hnth.
    destruct (nth_error (seq 0 _) j) as [k|] eqn:Hk; [|discriminate].
    injection Hnth as <-.
    apply nth_error_In in Hk as Hin. apply in_seq in Hin.
    assert (k = j).
    { assert (Hj : (j < List.length (seq 0 (Z.to_nat ((Z.of_nat n - 0 + step - 1)
                                                      / step))))%nat)
        by (apply nth_error_Some; congruence).
      rewrite length_seq in Hj.
      pose proof (nth_error_nth _ _ O Hk) as Hn.
      rewrite seq_nth in Hn by exact Hj. lia. }
    subst k. cbn beta. replace (0 + Z.of_nat j * step) with (Z.of_nat j * step) by lia.
    rewrite Z.div_mul by lia. reflexivity.
  - rewrite Z2Nat.id by exact Hcount. f_equal. lia.
Qed.

(** X20.  The progress line numbers the batches from one to the number
    of batches: for a positive batch size, the loop body run on the
    [j]-th start of the range prints one progress line, which gives
    [j + 1] as the number of the batch, the length of the range as the
    number of batches, and the size of the batch. *)
Theorem progress_counts_batches (world : World) (self : IngestionSimulator)
    (batch_size : Z) (readings : list reading) (starts : list Z) (j : nat)
    (i : Z) (s : state) :
  0 < batch_size ->
  py_range 0 (Z.of_nat (List.length readings)) batch_size = Ok starts ->
  nth_error starts j = Some i ->
  progress
    (added_since s
       (snd (deliver world self batch_size readings i
               (slice readings i (i + batch_size)) s)))
  = [(Z.of_nat j + 1, Z.of_nat (List.length starts),
      List.length (slice readings i (i + batch_size)))].
Proof.
  intros Hsize Hrange Hnth.
  destruct (py_range_nth _ _ _ _ _ Hsize Hrange Hnth) as [Hindex Htotal].
  unfold deliver. run_step. rewrite Hindex, Htotal.
  match goal with
  | |- context [ snd (?m ?s1) ] =>
      destruct (after_progress_line world self
                  (slice readings i (i + batch_size)) s1)
        as (added & Htrace & Hquiet)
  end.
  erewrite added_since_app.
  2: { rewrite Htrace. cbn [emit trace]. rewrite <- app_assoc. reflexivity. }
  rewrite progress_app, (progress_none _ Hquiet). reflexivity.
Qed.

(** Three readings in batches of two: the second batch is batch 2 of 2
    and has one reading. *)
Lemma progress_counts_batches_witness :
  progress
    (added_since initial_state
       (snd (deliver Scenario.three_rows_world Scenario.me 2 Scenario.three 2
               (slice Scenario.three 2 (2 + 2)) initial_state)))
  = [(2, 2, 1%nat)].
Proof.
  apply (progress_counts_batches Scenario.three_rows_world Scenario.me 2
           Scenario.three [0; 2] 1 2 initial_state).
  - lia.
  - reflexivity.
  - reflexivity.
Defined.

(** ** What a completed run has sent *)

Lemma filter_bound_within (lib : Library) (bound : option string)
    (cond : datetime -> reading -> outcome bool) (readings kept : list reading)
    (s s' : state) :
  filter_bound lib bound cond readings s = (Ok kept, s') ->
  s' = s /\ kept = within lib bound cond readings.
Proof.
  unfold filter_bound, within. destruct (truthy bound).
  - rewrite bind_run. unfold lift.
    destruct (parse_instant lib _) as [limit|e]; [|discriminate].
    intros [= Hkeep <-]. split; [reflexivity|]. now apply keep_if_filter.
  - now intros [= <- <-].
Qed.

Lemma within_forall (lib : Library) (bound : option string)
    (cond : datetime -> reading -> outcome bool) (P : reading -> Prop)
    (readings : list reading) :
  Forall P readings -> Forall P (within lib bound cond readings).
Proof.
  intros H. unfold within. destruct (truthy bound); [|exact H].
  destruct (parse_instant lib _); [|exact H].
  apply Forall_forall. intros r Hr. apply filter_In in Hr.
  rewrite Forall_forall in H. now apply H.
Qed.

(** X21.  What a completed run has sent is the file, filtered, sorted
    and cut into batches: when the file loads some readings and the run
    returns normally, the bodies of its requests are, in order, the
    serialisations of the batches of the loaded readings that lie
    within the two bounds, sorted by timestamp text. *)
Theorem completed_run_sends_the_window (lib : Library) (world : World)
    (self : IngestionSimulator) (csv_file : string) (speed : Q)
    (start_time end_time : option string) (batch_size : Z) (s s1 : state)
    (loaded : list reading) :
  fromisoformat lib "" = None ->
  load_csv_data lib world csv_file (emit (Print (MsgLoading csv_file)) s)
  = (Ok loaded, s1) ->
  loaded <> [] ->
  fst (simulate_ingestion lib world self csv_file speed start_time end_time
         batch_size s) = Ok tt ->
  bodies (steps (added_since s
                   (snd (simulate_ingestion lib world self csv_file speed
                           start_time end_time batch_size s))))
  = serialised world (dumps_calls s)
      (batches_of
         (sort_by ts
            (within lib end_time (not_after lib)
               (within lib start_time (not_before lib) loaded)))
         batch_size).
Proof.
  intros Hempty Hload Hne.
  pose proof (loaded_timestamps lib world csv_file _ _ loaded Hempty Hload)
    as Hts.
  destruct (load_csv_data_prints lib world csv_file
              (emit (Print (MsgLoading csv_file)) s))
    as (warned & Hwarned & Hprints).
  pose proof (load_csv_data_keeps dumps_calls lib world csv_file
                (fun _ _ => eq_refl) (emit (Print (MsgLoading csv_file)) s))
    as Hdumps.
  rewrite Hload in Hwarned, Hdumps. cbn [snd emit trace dumps_calls] in *.
  unfold simulate_ingestion. run_step. rewrite bind_run, Hload.
  destruct loaded as [|r0 rest] eqn:Hloaded; [now destruct Hne|].
  rewrite <- Hloaded in *. clear Hloaded.
  rewrite bind_run.
  destruct (filter_bound lib start_time (not_before lib) loaded s1)
    as [[from_start|e] s2] eqn:Hstart; [|discriminate].
  destruct (filter_bound_within _ _ _ _ _ _ _ Hstart) as [-> ->].
  rewrite bind_run.
  destruct (filter_bound lib end_time (not_after lib) _ s1)
    as [[in_range|e] s3] eqn:Hend; [|discriminate].
  destruct (filter_bound_within _ _ _ _ _ _ _ Hend) as [-> ->].
  intros Hok.
  destruct (replay_steps lib world self speed batch_size
              (within lib end_time (not_after lib)
                 (within lib start_time (not_before lib) loaded)) s1)
    as (added & Htrace & _ & Hschedule).
  rewrite (added_since_app s _ ([Print (MsgLoading csv_file)] ++ warned ++ added)).
  2: { rewrite Htrace, Hwarned. now rewrite <- !app_assoc. }
  rewrite !steps_app, (steps_of_prints _ Hprints). cbn [steps flat_map step_of app].
  rewrite (Hschedule Hok), bodies_schedule, Hdumps; [reflexivity|].
  now do 2 apply within_forall.
Qed.

(** Three rows replayed from the instant of the second one, in batches
    of two: one request, with the two readings from that instant on. *)
Lemma completed_run_sends_the_window_witness :
  bodies (steps (added_since initial_state
                   (snd (simulate_ingestion cpython Scenario.three_rows_world
                           Scenario.me "data.csv" 0
                           (Some "2024-01-01T00:00:10Z") None 2
                           initial_state))))
  = ["2024-01-01T00:00:10Z,2024-01-01T00:00:30Z"].
Proof.
  apply (completed_run_sends_the_window cpython Scenario.three_rows_world
           Scenario.me "data.csv" 0 (Some "2024-01-01T00:00:10Z") None 2
           initial_state
           (emit (Print (MsgLoading "data.csv")) initial_state)
           Scenario.three_loaded).
  - reflexivity.
  - vm_compute. reflexivity.
  - discriminate.
  - vm_compute. reflexivity.
Defined.
